(** * lago.lago_ansible: the Ansible inventory of a lago prefix

    A shallow embedding of [lago/lago_ansible.py] (class [LagoAnsible]):
    the path resolver [get_key], the inventory builder [get_inventory],
    its INI rendering [get_inventory_str] and the context manager
    [get_inventory_temp_file].

    Python values are a tagged type, exceptions are explicit results, the
    [defaultdict(list)] is the list of its items with the order of
    [viewitems()] taken as a parameter (and given for CPython 2.7), and the
    temporary file is a record threaded through the calls. *)

From Stdlib Require Import String Ascii List ZArith Bool Lia.
From Stdlib Require Import Sorted Permutation DecimalString.
Import ListNotations.

Local Open Scope string_scope.
Local Open Scope list_scope.

Set Warnings "-register-all".

(** ** Python values and results *)

Module Py.

(** Keys that reach a subscript in [get_key]: after [int(current_key)]
    the key is an integer, otherwise it is still the path segment. *)
Inductive key : Type :=
| KInt (n : Z)
| KStr (s : string).

(** The nested structure of a VM spec: scalars, lists and dicts. A dict is
    the list of its items; a lookup takes the first item with the key. *)
Inductive value : Type :=
| VNone
| VBool (b : bool)
| VInt (n : Z)
| VStr (s : string)
| VList (items : list value)
| VDict (items : list (key * value)).

Inductive exn : Type :=
| KeyError
| IndexError
| TypeError
| ValueError
| OSError.

(** A call either returns or raises. *)
Inductive result (A : Type) : Type :=
| Return (a : A)
| Raise (e : exn).

Arguments Return {A} a.
Arguments Raise {A} e.

Definition bind {A B : Type} (r : result A) (k : A -> result B) : result B :=
  match r with
  | Return a => k a
  | Raise e => Raise e
  end.

Definition key_eqb (a b : key) : bool :=
  match a, b with
  | KInt m, KInt n => Z.eqb m n
  | KStr s, KStr t => String.eqb s t
  | _, _ => false
  end.

(** *** [int(s)] on a text segment, as CPython 2.7 reads it

    Optional whitespace, an optional sign, optional whitespace again, at
    least one decimal digit, optional whitespace; anything else is
    [ValueError], here [None]. Left out: the [L] suffix that an
    overflowing literal may carry, and digits outside ASCII. *)

Definition is_space (c : ascii) : bool :=
  let n := nat_of_ascii c in
  Nat.eqb n 32 || (Nat.leb 9 n && Nat.leb n 13).

Definition is_digit (c : ascii) : bool :=
  let n := nat_of_ascii c in
  Nat.leb 48 n && Nat.leb n 57.

Definition digit_value (c : ascii) : Z := Z.of_nat (nat_of_ascii c - 48).

Fixpoint lstrip (s : string) : string :=
  match s with
  | String c r => if is_space c then lstrip r else s
  | EmptyString => EmptyString
  end.

Fixpoint all_space (s : string) : bool :=
  match s with
  | String c r => is_space c && all_space r
  | EmptyString => true
  end.

Fixpoint digits (s : string) (acc : Z) : option Z :=
  match s with
  | EmptyString => Some acc
  | String c r =>
      if is_digit c then digits r (10 * acc + digit_value c)
      else if all_space s then Some acc else None
  end.

Definition unsigned (s : string) : option Z :=
  match s with
  | String c _ => if is_digit c then digits s 0 else None
  | EmptyString => None
  end.

Definition int (s : string) : option Z :=
  match lstrip s with
  | String c r =>
      if Ascii.eqb c "+" then unsigned (lstrip r)
      else if Ascii.eqb c "-" then option_map Z.opp (unsigned (lstrip r))
      else unsigned (String c r)
  | EmptyString => None
  end.

(** *** [s.split(sep)] for a one-character separator: never empty. *)
Fixpoint split (sep : ascii) (s : string) : list string :=
  match s with
  | EmptyString => [EmptyString]
  | String c r =>
      if Ascii.eqb c sep then EmptyString :: split sep r
      else match split sep r with
           | h :: t => String c h :: t
           | [] => [String c EmptyString]
           end
  end.

(** *** Subscripts *)

(** [l[i]] with Python's indices: [0 .. len-1] from the front,
    [-len .. -1] from the back. *)
Definition index {A : Type} (l : list A) (i : Z) : option A :=
  let len := Z.of_nat (List.length l) in
  if (0 <=? i)%Z then nth_error l (Z.to_nat i)
  else if (- len <=? i)%Z then nth_error l (Z.to_nat (len + i))
  else None.

Definition dict_get (d : list (key * value)) (k : key) : option value :=
  option_map snd (find (fun kv => key_eqb (fst kv) k) d).

Definition chars (s : string) : list string :=
  map (fun c => String c EmptyString) (list_ascii_of_string s).

(** [v[k]]: a dict looks the key up ([KeyError]); a list or a string takes
    integers only ([IndexError] out of range, [TypeError] for a string
    key); nothing else can be subscripted ([TypeError]). *)
Definition getitem (v : value) (k : key) : result value :=
  match v, k with
  | VDict d, _ =>
      match dict_get d k with
      | Some x => Return x
      | None => Raise KeyError
      end
  | VList l, KInt i =>
      match index l i with
      | Some x => Return x
      | None => Raise IndexError
      end
  | VStr s, KInt i =>
      match index (chars s) i with
      | Some c => Return (VStr c)
      | None => Raise IndexError
      end
  | _, _ => Raise TypeError
  end.

End Py.

Import Py.

(** ** [LagoAnsible.get_key] *)

(** [current_key = int(current_key)], keeping the segment on [ValueError]. *)
Definition to_key (segment : string) : key :=
  match Py.int segment with
  | Some n => KInt n
  | None => KStr segment
  end.

(** The [while path:] loop: one subscript per segment, [None] as soon as a
    subscript raises [KeyError] or [IndexError]. *)
Fixpoint walk (path : list string) (current_value : value) : result value :=
  match path with
  | [] => Return current_value
  | current_key :: path' =>
      match getitem current_value (to_key current_key) with
      | Return v => walk path' v
      | Raise KeyError | Raise IndexError => Return VNone
      | Raise e => Raise e
      end
  end.

(** [path = key.split('/')] followed by [path[0] or path.pop(0)]. *)
Definition split_path (key : string) : list string :=
  match split "/" key with
  | EmptyString :: rest => rest
  | path => path
  end.

Definition get_key (key : string) (data_structure : value) : result value :=
  if String.eqb key "/" then Return data_structure
  else walk (split_path key) data_structure.

(** ** The prefix and its VMs *)

Module VM.
(** What [LagoAnsible] reads of a VM: [vm.name()], [vm.ip()], [vm.spec]. *)
Record t : Type := Build { name : string; ip : string; spec : value }.
End VM.

(** [prefix.get_vms().values()] in the order the loop visits them, and
    [prefix.paths.ssh_id_rsa()]. *)
Record Prefix : Type := {
  get_vms : list VM.t;
  ssh_id_rsa : string
}.

Record LagoAnsible : Type := { prefix : Prefix }.

Definition _generate_entry (self : LagoAnsible) (vm : VM.t) : string :=
  VM.name vm ++ " ansible_host=" ++ VM.ip vm
    ++ " ansible_ssh_private_key_file=" ++ ssh_id_rsa (prefix self).

(** ** The inventory: a [defaultdict(list)] *)

(** The items of the mapping, each group with its entries in the order
    they were appended. The list keeps the groups in the order they were
    inserted, which is what decides where the dict stores them; the code
    never sees that order: it reads the mapping by key or through
    [viewitems()], which is a parameter of [get_inventory_str]. The VMs
    come in the order of [get_vms] in [Prefix]. *)
Definition inventory_t : Type := list (string * list string).

Definition hosts_of (inventory : inventory_t) (group : string) : option (list string) :=
  option_map snd (find (fun g => String.eqb (fst g) group) inventory).

(** [inventory[group].append(entry)]: a missing group is created with an
    empty list first. *)
Fixpoint append_entry (inventory : inventory_t) (group entry : string) : inventory_t :=
  match inventory with
  | [] => [(group, [entry])]
  | (g, hosts) :: rest =>
      if String.eqb g group then (g, hosts ++ [entry]) :: rest
      else (g, hosts) :: append_entry rest group entry
  end.

(** A [for] loop whose body updates a state and may raise. *)
Fixpoint for_each {A S : Type} (xs : list A) (body : A -> S -> result S) (s : S)
  : result S :=
  match xs with
  | [] => Return s
  | x :: rest => bind (body x s) (for_each rest body)
  end.

Definition default_keys : list string := ["vm-type"; "groups"; "vm-provider"].

(** [keys or ['vm-type', 'groups', 'vm-provider']]: [None] and the empty
    list are both false. *)
Definition keys_or_default (keys : option (list string)) : list string :=
  match keys with
  | Some (k :: rest) => k :: rest
  | Some [] | None => default_keys
  end.

Section Inventory.

(** What ['{}'.format(v)] prints for a value. *)
Variable str : value -> string.

(** The order in which [inventory.viewitems()] yields the items of the
    mapping: for a Python 2 dict, the order of its hash slots. *)
Variable viewitems : inventory_t -> inventory_t.

(** ['{}={}'.format(key, value)] *)
Definition group_name (key : string) (v : value) : string :=
  key ++ "=" ++ str v.

(** ** [LagoAnsible.get_inventory] *)
Definition get_inventory (self : LagoAnsible) (keys : option (list string))
  : result inventory_t :=
  let keys := keys_or_default keys in
  let vms := get_vms (prefix self) in
  for_each vms (fun vm inventory =>
    let entry := _generate_entry self vm in
    let vm_spec := VM.spec vm in
    for_each keys (fun key inventory =>
      bind (get_key key vm_spec) (fun value =>
        match value with
        | VNone => Return inventory
        | VList sub_values =>
            Return (fold_left
                      (fun inventory sub_value =>
                         append_entry inventory (group_name key sub_value) entry)
                      sub_values inventory)
        | _ => Return (append_entry inventory (group_name key value) entry)
        end)) inventory) [].

(** ** [LagoAnsible.get_inventory_str] *)

Definition newline : string := String "010" EmptyString.

(** [sorted(hosts)] on strings, by insertion. *)
Fixpoint insert (x : string) (l : list string) : list string :=
  match l with
  | [] => [x]
  | y :: r => if String.leb x y then x :: l else y :: insert x r
  end.

Definition sorted (l : list string) : list string := fold_right insert [] l.

Definition header (name : string) : string := "[" ++ name ++ "]".

(** The two loops over the items in the order given. *)
Definition inventory_lines (items : inventory_t) : list string :=
  fold_left
    (fun lines group =>
       fold_left (fun lines host => lines ++ [host])
                 (sorted (snd group))
                 (lines ++ [header (fst group)]))
    items [].

Definition get_inventory_str (self : LagoAnsible) (keys : option (list string))
  : result string :=
  bind (get_inventory self keys) (fun inventory =>
    Return (String.concat newline (inventory_lines (viewitems inventory)))).

End Inventory.

(** ** [LagoAnsible.get_inventory_temp_file] *)

Module TempFile.

(** A [tempfile.NamedTemporaryFile(mode='r+t')]: the text the handle holds,
    what has reached the file under [name] ([None] once the file is
    deleted), the cursor, and whether the handle is closed. *)
Record t : Type := Build {
  name : string;
  content : string;
  on_disk : option string;
  cursor : nat;
  closed : bool
}.

Definition NamedTemporaryFile (name : string) : t :=
  Build name EmptyString (Some EmptyString) 0 false.

(** [f.write(text)] at the cursor, over what was there. *)
Definition write (f : t) (text : string) : t :=
  let stop := cursor f + String.length text in
  Build (name f)
        (substring 0 (cursor f) (content f) ++ text
           ++ substring stop (String.length (content f) - stop) (content f))
        (on_disk f) stop (closed f).

Definition flush (f : t) : t :=
  Build (name f) (content f) (Some (content f)) (cursor f) (closed f).

Definition seek (f : t) (offset : nat) : t :=
  Build (name f) (content f) (on_disk f) offset (closed f).

(** [f.read()]: everything from the cursor on. *)
Definition read (f : t) : string * t :=
  (substring (cursor f) (String.length (content f) - cursor f) (content f),
   Build (name f) (content f) (on_disk f) (String.length (content f)) (closed f)).

(** [f.close()]: nothing on a handle already closed; otherwise the handle
    is closed and the file is unlinked by its name, which raises [OSError]
    when the file is no longer there. *)
Definition close (f : t) : result unit * t :=
  if closed f then (Return tt, f)
  else
    let f' := Build (name f) (content f) None (cursor f) true in
    match on_disk f with
    | Some _ => (Return tt, f')
    | None => (Raise OSError, f')
    end.

End TempFile.

(** How the body of a [with] statement is left. *)
Inductive exit_t : Type :=
| Normal
| EarlyExit
| Exception (e : exn).

Section TempFileScope.

Variable str : value -> string.
Variable viewitems : inventory_t -> inventory_t.

(** The generator up to its [yield temp_file]: the value handed to the
    caller, or the exception that ends the generator, with the temporary
    file as it is at that point. *)
Definition before_yield (self : LagoAnsible) (keys : option (list string))
  (name : string) : result unit * TempFile.t :=
  let temp_file := TempFile.NamedTemporaryFile name in
  match get_inventory_str str viewitems self keys with
  | Raise e => (Raise e, temp_file)
  | Return inventory =>
      let temp_file := TempFile.write temp_file inventory in
      let temp_file := TempFile.flush temp_file in
      let temp_file := TempFile.seek temp_file 0 in
      (Return tt, temp_file)
  end.

(** The generator after its [yield]: the one statement
    [temp_file.close()]. *)
Definition after_yield (temp_file : TempFile.t) : result unit * TempFile.t :=
  TempFile.close temp_file.

(** [contextlib.contextmanager]'s [__exit__]: without an exception the
    generator is resumed and runs [after_yield]; with one, the exception is
    thrown into the generator at the [yield], which no [try] encloses, so
    it leaves the generator at once and is raised again. *)
Definition __exit__ (temp_file : TempFile.t) (how : exit_t)
  : result unit * TempFile.t :=
  match how with
  | Normal | EarlyExit => after_yield temp_file
  | Exception e => (Raise e, temp_file)
  end.

(** [with self.get_inventory_temp_file(keys) as f: body(f)] *)
Definition get_inventory_temp_file (self : LagoAnsible)
  (keys : option (list string)) (name : string)
  (body : TempFile.t -> exit_t * TempFile.t) : result unit * TempFile.t :=
  match before_yield self keys name with
  | (Raise e, temp_file) => (Raise e, temp_file)
  | (Return _, temp_file) =>
      let (how, temp_file) := body temp_file in
      __exit__ temp_file how
  end.

End TempFileScope.

(** ** The order of [viewitems()] in CPython 2.7 *)

Module Dict27.

(** The hash table of a dict: its slots, empty or holding an item. A
    64-bit build without hash randomisation; C's [long] and [size_t] are
    integers below [2^64]. *)
Definition table : Type := list (option (string * list string)).

Definition wrap (x : Z) : Z := Z.land x (2 ^ 64 - 1)%Z.

Definition ord (c : ascii) : Z := Z.of_nat (nat_of_ascii c).

(** [string_hash] of [Objects/stringobject.c]. *)
Definition string_hash (s : string) : Z :=
  match s with
  | EmptyString => 0%Z
  | String c _ =>
      let x := fold_left (fun x c => Z.lxor (wrap (1000003 * x)%Z) (ord c))
                         (list_ascii_of_string s) (Z.shiftl (ord c) 7) in
      let x := Z.lxor x (Z.of_nat (String.length s)) in
      if Z.eqb x (2 ^ 64 - 1)%Z then (2 ^ 64 - 2)%Z else x
  end.

(** The probe of [insertdict_clean]: from slot [i & mask] on, the first
    empty slot along [i = (i << 2) + i + perturb + 1], [perturb >>= 5].
    A table is never full, and the probe reaches every slot once
    [perturb] is used up, so the steps granted are never exhausted. *)
Fixpoint probe (steps : nat) (t : table) (mask i perturb : Z) : Z :=
  match steps, nth (Z.to_nat (Z.land i mask)) t None with
  | S steps, Some _ =>
      probe steps t mask (wrap (Z.shiftl i 2 + i + perturb + 1)%Z)
            (Z.shiftr perturb 5)
  | _, _ => Z.land i mask
  end.

Fixpoint put (t : table) (slot : nat) (item : string * list string) : table :=
  match t, slot with
  | _ :: rest, O => Some item :: rest
  | x :: rest, S slot => x :: put rest slot item
  | [], _ => []
  end.

Definition insert_clean (t : table) (item : string * list string) : table :=
  let hash := string_hash (fst item) in
  let mask := (Z.of_nat (List.length t) - 1)%Z in
  put t (Z.to_nat (probe (List.length t + 16) t mask (Z.land hash mask) hash)) item.

(** The items in the order of the slots: the order of iteration. *)
Definition items (t : table) : list (string * list string) :=
  flat_map (fun slot => match slot with Some item => [item] | None => [] end) t.

(** [dictresize]: the smallest power of two above [minused], from 8 on. *)
Fixpoint new_size (steps : nat) (size minused : Z) : Z :=
  match steps with
  | S steps => if (size <=? minused)%Z then new_size steps (2 * size)%Z minused
               else size
  | O => size
  end.

Definition resize (t : table) (minused : Z) : table :=
  fold_left insert_clean (items t)
            (repeat None (Z.to_nat (new_size 64 8 minused))).

(** [PyDict_SetItem] of a key that is not in the dict: the item is put
    in, and the table is rebuilt, slot by slot, once two thirds full. *)
Definition setitem (t : table) (item : string * list string) : table :=
  let t := insert_clean t item in
  let used := Z.of_nat (List.length (items t)) in
  if (2 * Z.of_nat (List.length t) <=? 3 * used)%Z
  then resize t ((if 50000 <? used then 2 else 4) * used)%Z
  else t.

(** The items of a dict whose keys were inserted in the order of the
    list, as [viewitems()] yields them. *)
Definition viewitems (inventory : list (string * list string))
  : list (string * list string) :=
  items (fold_left setitem inventory (repeat None 8)).

End Dict27.

(** ** Notions used to state the properties *)

(** *** Paths *)

(** Whether a character occurs in a string. *)
Fixpoint has_char (c : ascii) (s : string) : bool :=
  match s with
  | String a r => Ascii.eqb a c || has_char c r
  | EmptyString => false
  end.

(** A dict all of whose keys are strings. *)
Definition only_str_keys (d : list (key * value)) : bool :=
  forallb (fun kv => match fst kv with KStr _ => true | KInt _ => false end) d.

(** The subscripts Python accepts at all: any key on a dict, an integer on
    a list or a string. *)
Definition subscriptable (v : value) (k : key) : bool :=
  match v, k with
  | VDict _, _ => true
  | VList _, KInt _ => true
  | VStr _, KInt _ => true
  | _, _ => false
  end.

(** The value a path leads to when every subscript on it succeeds. *)
Fixpoint traverse (path : list string) (v : value) : option value :=
  match path with
  | [] => Some v
  | seg :: rest =>
      match getitem v (to_key seg) with
      | Return x => traverse rest x
      | Raise _ => None
      end
  end.

(** Some segment of the path is reached and cannot subscript the value
    found there. *)
Definition type_error_at (path : list string) (d : value) : Prop :=
  exists before seg rest v,
    path = before ++ seg :: rest /\
    traverse before d = Some v /\
    subscriptable v (to_key seg) = false.

(** *** Group memberships *)

Section GroupingModel.

Variable str : value -> string.
Variable self : LagoAnsible.

(** The groups a resolved value puts a VM in: none for [None], one per
    element for a list, one for anything else. *)
Definition groups_for (key : string) (v : value) : list string :=
  match v with
  | VNone => []
  | VList elements => map (group_name str key) elements
  | _ => [group_name str key v]
  end.

(** The (group, host entry) pairs of one VM under one key. *)
Definition memberships (vm : VM.t) (key : string) : list (string * string) :=
  match get_key key (VM.spec vm) with
  | Return v => map (fun g => (g, _generate_entry self vm)) (groups_for key v)
  | Raise _ => []
  end.

(** All pairs: VM by VM and, for each VM, key by key. *)
Definition all_memberships (keys : list string) : list (string * string) :=
  flat_map (fun vm => flat_map (memberships vm) keys) (get_vms (prefix self)).

(** The entries paired with a group, in the order of the pairs. *)
Definition entries_in (group : string) (ms : list (string * string)) : list string :=
  map snd (filter (fun m => String.eqb (fst m) group) ms).

(** [get_key] returns, whatever the value, for each of the keys. *)
Definition resolves (vm : VM.t) (keys : list string) : bool :=
  forallb (fun key => match get_key key (VM.spec vm) with
                      | Return _ => true
                      | Raise _ => false
                      end) keys.

(** The pairs appended to the mapping one after the other. *)
Definition add_all (ms : list (string * string)) (inventory : inventory_t)
  : inventory_t :=
  fold_left (fun inventory m => append_entry inventory (fst m) (snd m)) ms inventory.

(** The inner loop of [get_inventory], [for key in keys:], for one VM. *)
Definition key_loop (vm : VM.t) (keys : list string) (inventory : inventory_t)
  : result inventory_t :=
  for_each keys (fun key inventory =>
    bind (get_key key (VM.spec vm)) (fun value =>
      match value with
      | VNone => Return inventory
      | VList sub_values =>
          Return (fold_left
                    (fun inventory sub_value =>
                       append_entry inventory (group_name str key sub_value)
                                    (_generate_entry self vm))
                    sub_values inventory)
      | _ => Return (append_entry inventory (group_name str key value)
                                  (_generate_entry self vm))
      end)) inventory.

(** Every key in use resolves on every VM of the prefix. *)
Definition all_resolve (keys : option (list string)) : bool :=
  forallb (fun vm => resolves vm (keys_or_default keys)) (get_vms (prefix self)).

End GroupingModel.

(** [inventory[group]] as the [defaultdict] reads it: empty when missing. *)
Definition hosts_or_empty (inventory : inventory_t) (group : string) : list string :=
  match hosts_of inventory group with
  | Some hosts => hosts
  | None => []
  end.

(** *** A prefix to run the functions on *)

(** [str] of the scalars, as ['{}'.format] prints them. Lists and dicts
    print through [repr], which this instance leaves out: it is used on
    specs whose group values are scalars or lists of scalars. *)
Definition str_scalar (v : value) : string :=
  match v with
  | VNone => "None"
  | VBool true => "True"
  | VBool false => "False"
  | VInt n => NilZero.string_of_int (Z.to_int n)
  | VStr s => s
  | VList _ => "[...]"
  | VDict _ => "{...}"
  end.

Definition two_vms : LagoAnsible :=
  {| prefix :=
       {| get_vms :=
            [ VM.Build "vm1" "1.1.1.1" (VDict [(KStr "vm-type", VStr "x")]);
              VM.Build "vm2" "1.1.1.2"
                       (VDict [(KStr "vm-type", VList [VStr "x"; VStr "y"])]);
              VM.Build "vm3" "1.1.1.3" (VDict [(KStr "groups", VStr "g")]) ];
          ssh_id_rsa := "/k" |} |}.

(** *** The INI text *)

(** The order of [sorted] on strings: character codes, left to right. *)
Definition string_le (a b : string) : Prop := String.leb a b = true.

(** The lines of one group: its header, then its hosts sorted. *)
Definition block (group : string * list string) : list string :=
  header (fst group) :: sorted (snd group).

(** Whether a group is among the groups already in the mapping. *)
Definition seen (group : string) (groups : list string) : bool :=
  existsb (fun h => String.eqb h group) groups.

(** The lines of a group in the text: the header, then a sorted
    rearrangement of the group's hosts. *)
Definition rendered (group : string * list string) (lines : list string) : Prop :=
  exists hosts,
    lines = header (fst group) :: hosts /\
    Permutation (snd group) hosts /\
    Sorted string_le hosts.

(** *** Reading the text back *)

(** Modelled from the spec: a line without its closing bracket, when it
    ends with one; part of recognising a header [[group]]. *)
Fixpoint drop_bracket (s : string) : option string :=
  match s with
  | EmptyString => None
  | String c EmptyString => if Ascii.eqb c "]" then Some EmptyString else None
  | String c rest => option_map (String c) (drop_bracket rest)
  end.

(** Modelled from the spec: how a header line is recognised when the text
    is parsed again; the repository has no parser. A header is a line
    [[group]]; the group is what stands between the two brackets. *)
Definition header_name (line : string) : option string :=
  match line with
  | String c rest => if Ascii.eqb c "[" then drop_bracket rest else None
  | EmptyString => None
  end.

(** Modelled from the spec: the lines of a text parsed from its end: the
    host lines not yet under a header, and the groups found so far. *)
Fixpoint parse_lines (lines : list string) : list string * inventory_t :=
  match lines with
  | [] => ([], [])
  | line :: rest =>
      let (hosts, groups) := parse_lines rest in
      match header_name line with
      | Some group => ([], (group, hosts) :: groups)
      | None => (line :: hosts, groups)
      end
  end.

(** Modelled from the spec: the re-parser of the INI text, which the
    repository does not contain. The text is cut at newlines; a header
    line opens a group, and the lines after it, up to the next header, are
    the hosts of the group. *)
Definition parse_ini (text : string) : inventory_t :=
  snd (parse_lines (split "010" text)).

(** The parsed mapping has the groups of the inventory, each with the same
    hosts up to their order. *)
Definition recovers (inventory parsed : inventory_t) : Prop :=
  forall group,
    match hosts_of inventory group, hosts_of parsed group with
    | Some hosts, Some hosts' => Permutation hosts hosts'
    | None, None => True
    | _, _ => False
    end.

(** A line that the parser takes for a header. *)
Definition is_header (line : string) : bool :=
  match header_name line with
  | Some _ => true
  | None => false
  end.

(** A line that the parser takes for a host: one line, not a header. *)
Definition host_line (line : string) : bool :=
  negb (has_char "010" line) && negb (is_header line).

(** Texts that can be cut into lines again: no newline inside a group
    name or a host entry, and no host entry that reads as a header. *)
Definition line_safe (inventory : inventory_t) : bool :=
  forallb (fun g => negb (has_char "010" (fst g)) && forallb host_line (snd g))
          inventory.

(** *** Two prefixes with one text *)

Definition vm1_entry : string :=
  "vm1 ansible_host=1.1.1.1 ansible_ssh_private_key_file=/k".

Definition one_vm (spec : value) : LagoAnsible :=
  {| prefix := {| get_vms := [VM.Build "vm1" "1.1.1.1" spec]; ssh_id_rsa := "/k" |} |}.

(** One VM whose [vm-type] is a single string with newlines in it. *)
Definition multiline_vm : LagoAnsible :=
  one_vm (VDict [(KStr "vm-type",
                  VStr ("x]" ++ newline ++ vm1_entry ++ newline ++ "[vm-type=y"))]).

(** The same VM with [None] for its [disks]. *)
Definition null_disks_vm : LagoAnsible :=
  one_vm (VDict [(KStr "disks", VNone)]).

(** The same VM with the list [["a", "b"]] as its [vm-type]. *)
Definition lettered_vm : LagoAnsible :=
  one_vm (VDict [(KStr "vm-type", VList [VStr "a"; VStr "b"])]).

(** The same VM with the list [["x", "y"]] as its [vm-type]. *)
Definition listed_vm : LagoAnsible :=
  one_vm (VDict [(KStr "vm-type", VList [VStr "x"; VStr "y"])]).

(** *** Paths that start at the root *)

(** A path written with a leading slash. *)
Definition absolute (path : string) : bool :=
  match path with
  | String c _ => Ascii.eqb c "/"
  | EmptyString => false
  end.

(** *** Inventories as a whole *)

(** The number of host entries over all groups. *)
Definition host_count (inventory : inventory_t) : nat :=
  List.length (concat (map snd inventory)).

(** Every key resolves to [None] on the VM. *)
Definition all_none (vm : VM.t) (keys : list string) : bool :=
  forallb (fun key => match get_key key (VM.spec vm) with
                      | Return VNone => true
                      | _ => false
                      end) keys.


(** Two inventories with the same groups in the same order, each with the
    same hosts up to their order. *)
Definition same_groups (a b : inventory_t) : Prop :=
  Forall2 (fun g g' => fst g = fst g' /\ Permutation (snd g) (snd g')) a b.

(** The VMs of [two_vms] with the first two the other way round. *)
Definition two_vms_swapped : LagoAnsible :=
  {| prefix :=
       {| get_vms :=
            [ VM.Build "vm2" "1.1.1.2"
                       (VDict [(KStr "vm-type", VList [VStr "x"; VStr "y"])]);
              VM.Build "vm1" "1.1.1.1" (VDict [(KStr "vm-type", VStr "x")]);
              VM.Build "vm3" "1.1.1.3" (VDict [(KStr "groups", VStr "g")]) ];
          ssh_id_rsa := "/k" |} |}.

(** ** The path resolver *)

Lemma split_without_sep (sep : ascii) (s : string) :
  has_char sep s = false -> split sep s = [s].
Proof.
  induction s as [|c r IH]; simpl; [reflexivity|].
  intros H. apply orb_false_iff in H as [Hc Hr].
  rewrite Hc, (IH Hr). reflexivity.
Qed.

Lemma space_not_slash (c : ascii) : is_space c = true -> Ascii.eqb c "/" = false.
Proof.
  destruct (Ascii.eqb_spec c "/") as [->|]; [discriminate|reflexivity].
Qed.

Lemma digit_not_slash (c : ascii) : is_digit c = true -> Ascii.eqb c "/" = false.
Proof.
  destruct (Ascii.eqb_spec c "/") as [->|]; [discriminate|reflexivity].
Qed.

Lemma all_space_no_slash (s : string) :
  all_space s = true -> has_char "/" s = false.
Proof.
  induction s as [|c r IH]; simpl; [reflexivity|].
  intros H. apply andb_true_iff in H as [Hc Hr].
  rewrite (space_not_slash c Hc), (IH Hr). reflexivity.
Qed.

Lemma digits_no_slash (s : string) :
  forall acc n, digits s acc = Some n -> has_char "/" s = false.
Proof.
  induction s as [|c r IH]; intros acc n H; [reflexivity|].
  cbn [digits] in H.
  destruct (is_digit c) eqn:Hd.
  - cbn [has_char]. rewrite (digit_not_slash c Hd). exact (IH _ _ H).
  - destruct (all_space (String c r)) eqn:Hs; [|discriminate].
    exact (all_space_no_slash _ Hs).
Qed.

Lemma unsigned_no_slash (s : string) (n : Z) :
  unsigned s = Some n -> has_char "/" s = false.
Proof.
  destruct s as [|c r]; [discriminate|].
  unfold unsigned. destruct (is_digit c); [|discriminate].
  apply digits_no_slash.
Qed.

Lemma lstrip_no_slash (s : string) :
  has_char "/" (lstrip s) = false -> has_char "/" s = false.
Proof.
  induction s as [|c r IH]; [reflexivity|].
  cbn [lstrip]. destruct (is_space c) eqn:Hc; [|trivial].
  intros H. cbn [has_char]. rewrite (space_not_slash c Hc). exact (IH H).
Qed.

Lemma int_no_slash (s : string) (n : Z) :
  Py.int s = Some n -> has_char "/" s = false.
Proof.
  unfold Py.int. intros H. apply lstrip_no_slash.
  destruct (lstrip s) as [|c r]; [reflexivity|].
  destruct (Ascii.eqb_spec c "+") as [->|_].
  { cbn. apply lstrip_no_slash. exact (unsigned_no_slash _ _ H). }
  destruct (Ascii.eqb_spec c "-") as [->|_].
  { cbn. destruct (unsigned (lstrip r)) eqn:Hu; [|discriminate].
    apply lstrip_no_slash. exact (unsigned_no_slash _ _ Hu). }
  exact (unsigned_no_slash _ _ H).
Qed.

(** A segment that [int] accepts is a whole path of one segment. *)
Lemma split_path_int (seg : string) (n : Z) :
  Py.int seg = Some n -> String.eqb seg "/" = false /\ split_path seg = [seg].
Proof.
  intros H. pose proof (int_no_slash _ _ H) as Hs. split.
  - destruct (String.eqb_spec seg "/") as [->|]; [discriminate|reflexivity].
  - unfold split_path. rewrite (split_without_sep _ _ Hs).
    destruct seg; [discriminate|reflexivity].
Qed.

Lemma get_key_int (seg : string) (n : Z) (d : value) :
  Py.int seg = Some n -> get_key seg d = walk [seg] d.
Proof.
  intros H. destruct (split_path_int _ _ H) as [H1 H2].
  unfold get_key. rewrite H1, H2. reflexivity.
Qed.

(** C4: [get_key "/" d] is [d] itself, and the empty path resolves like
    ["/"]: it also returns [d]. *)
Theorem get_key_root (d : value) :
  get_key "/" d = Return d /\
  get_key "" d = Return d /\
  get_key "" d = get_key "/" d.
Proof. repeat split. Qed.

(** *** Integer segments *)

Lemma dict_get_int_only_str (d : list (key * value)) (n : Z) :
  only_str_keys d = true -> dict_get d (KInt n) = None.
Proof.
  unfold dict_get. induction d as [|[k v] r IH]; simpl; [reflexivity|].
  intros H. apply andb_true_iff in H as [Hk Hr].
  destruct k; [discriminate|]. simpl. exact (IH Hr).
Qed.

(** C6: a segment that [int] accepts is used as the integer subscript and
    as nothing else; on a dict whose keys are all strings that lookup
    fails and [get_key] returns [None], also when the dict has the segment
    as a string key. *)
Theorem get_key_int_segment_no_retry (seg : string) (n : Z)
  (d : list (key * value)) :
  Py.int seg = Some n ->
  only_str_keys d = true ->
  (forall rest v,
      walk (seg :: rest) v =
      match getitem v (KInt n) with
      | Return y => walk rest y
      | Raise KeyError | Raise IndexError => Return VNone
      | Raise e => Raise e
      end) /\
  (forall rest, walk (seg :: rest) (VDict d) = Return VNone) /\
  get_key seg (VDict d) = Return VNone.
Proof.
  intros Hint Hkeys.
  assert (Hstep : forall rest, walk (seg :: rest) (VDict d) = Return VNone).
  { intros rest. cbn [walk]. unfold to_key. rewrite Hint.
    cbn [getitem]. rewrite (dict_get_int_only_str _ _ Hkeys). reflexivity. }
  split; [|split].
  - intros rest v. cbn [walk]. unfold to_key. rewrite Hint. reflexivity.
  - exact Hstep.
  - rewrite (get_key_int _ _ _ Hint). apply Hstep.
Qed.

Lemma get_key_int_segment_no_retry_witness :
  dict_get [(KStr "0", VStr "x")] (KStr "0") = Some (VStr "x") /\
  get_key "0" (VDict [(KStr "0", VStr "x")]) = Return VNone.
Proof.
  split; [reflexivity|].
  apply (get_key_int_segment_no_retry "0" 0 [(KStr "0", VStr "x")]);
    reflexivity.
Defined.

Lemma index_from_end {A : Type} (l : list A) (n : Z) (dflt : A) :
  (- Z.of_nat (List.length l) <= n < 0)%Z ->
  index l n = Some (nth (List.length l - Z.to_nat (- n)) l dflt).
Proof.
  intros [Hlo Hhi]. unfold index.
  destruct (Z.leb_spec 0 n) as [H|_]; [lia|].
  destruct (Z.leb_spec (- Z.of_nat (List.length l)) n) as [_|H]; [|lia].
  replace (Z.to_nat (Z.of_nat (List.length l) + n))
    with (List.length l - Z.to_nat (- n)) by lia.
  apply nth_error_nth'. lia.
Qed.

(** C10: a negative integer segment on a list that is long enough
    resolves to the element counted from the end ([-1] is the last one),
    not to [None]. *)
Theorem get_key_negative_index (seg : string) (n : Z) (l : list value) :
  Py.int seg = Some n ->
  (- Z.of_nat (List.length l) <= n < 0)%Z ->
  get_key seg (VList l)
  = Return (nth (List.length l - Z.to_nat (- n)) l VNone).
Proof.
  intros Hint Hn. rewrite (get_key_int _ _ _ Hint).
  cbn [walk]. unfold to_key. rewrite Hint. cbn [getitem].
  rewrite (index_from_end l n VNone Hn). reflexivity.
Qed.

Lemma get_key_negative_index_witness :
  get_key "-1" (VList [VInt 1; VInt 2; VInt 3]) = Return (VInt 3).
Proof.
  apply (get_key_negative_index "-1" (-1) [VInt 1; VInt 2; VInt 3]).
  - reflexivity.
  - simpl. lia.
Defined.

(** *** What [get_key] can raise *)

Lemma getitem_cases (v : value) (k : key) :
  (exists x, getitem v k = Return x /\ subscriptable v k = true) \/
  (getitem v k = Raise KeyError /\ subscriptable v k = true) \/
  (getitem v k = Raise IndexError /\ subscriptable v k = true) \/
  (getitem v k = Raise TypeError /\ subscriptable v k = false).
Proof.
  destruct v as [| | |s|l|d], k as [i|t]; cbn;
    try (right; right; right; split; reflexivity).
  - destruct (index (chars s) i); [left; eauto | right; right; left; auto].
  - destruct (index l i); [left; eauto | right; right; left; auto].
  - destruct (dict_get d (KInt i)); [left; eauto | right; left; auto].
  - destruct (dict_get d (KStr t)); [left; eauto | right; left; auto].
Qed.

Lemma walk_returns_or_TypeError (path : list string) :
  forall d, (exists v, walk path d = Return v) \/ walk path d = Raise TypeError.
Proof.
  induction path as [|seg rest IH]; intros d; cbn [walk]; [left; eauto|].
  destruct (getitem_cases d (to_key seg))
    as [(x & -> & _) | [[-> _] | [[-> _] | [-> _]]]]; eauto.
Qed.

Lemma walk_TypeError_iff (path : list string) :
  forall d, walk path d = Raise TypeError <-> type_error_at path d.
Proof.
  induction path as [|seg rest IH]; intros d; cbn [walk].
  - split; [discriminate|].
    intros (before & s & r & v & H & _). destruct before; discriminate.
  - destruct (getitem_cases d (to_key seg))
      as [(x & Hx & Hs) | [[Hx Hs] | [[Hx Hs] | [Hx Hs]]]]; rewrite Hx.
    + rewrite IH. split.
      * intros (before & s & r & v & -> & Ht & Hn).
        exists (seg :: before), s, r, v. cbn [traverse]. rewrite Hx. auto.
      * intros (before & s & r & v & Hp & Ht & Hn).
        destruct before as [|b before]; cbn in Hp; injection Hp as H1 H2; subst.
        { cbn in Ht. injection Ht as <-. congruence. }
        cbn [traverse] in Ht. rewrite Hx in Ht.
        exists before, s, r, v. auto.
    + split; [discriminate|].
      intros (before & s & r & v & Hp & Ht & Hn).
      destruct before as [|b before]; cbn in Hp; injection Hp as H1 H2; subst.
      { cbn in Ht. injection Ht as <-. congruence. }
      cbn [traverse] in Ht. rewrite Hx in Ht. discriminate.
    + split; [discriminate|].
      intros (before & s & r & v & Hp & Ht & Hn).
      destruct before as [|b before]; cbn in Hp; injection Hp as H1 H2; subst.
      { cbn in Ht. injection Ht as <-. congruence. }
      cbn [traverse] in Ht. rewrite Hx in Ht. discriminate.
    + split; [|reflexivity]. intros _.
      exists [], seg, rest, d. auto.
Qed.

Lemma walk_traverse (path : list string) :
  forall d v, traverse path d = Some v -> walk path d = Return v.
Proof.
  induction path as [|seg rest IH]; intros d v H; cbn in *.
  - congruence.
  - destruct (getitem d (to_key seg)); [exact (IH _ _ H)|discriminate].
Qed.

Lemma walk_miss (before : list string) (seg : string) (rest : list string) :
  forall d v,
    traverse before d = Some v ->
    getitem v (to_key seg) = Raise KeyError
    \/ getitem v (to_key seg) = Raise IndexError ->
    walk (before ++ seg :: rest) d = Return VNone.
Proof.
  induction before as [|b before IH]; intros d v Ht Hmiss; cbn in *.
  - injection Ht as ->. destruct Hmiss as [-> | ->]; reflexivity.
  - destruct (getitem d (to_key b)); [exact (IH _ _ Ht Hmiss)|discriminate].
Qed.

(** C1, as the code has it: [get_key] returns a value or raises
    [TypeError], never [KeyError] or [IndexError]. It returns the value the
    path leads to when every subscript succeeds, and [None] as soon as a
    key is absent or an index is out of range. It raises exactly when the
    walk reaches a value that the next segment cannot subscript: [None], a
    boolean or a number, or a list or string under a segment that is not
    an integer. *)
Theorem get_key_returns_or_TypeError (key : string) (d : value) :
  ((exists v, get_key key d = Return v) \/ get_key key d = Raise TypeError) /\
  (forall v, key <> "/" -> traverse (split_path key) d = Some v ->
             get_key key d = Return v) /\
  (forall before seg rest v,
      key <> "/" ->
      split_path key = before ++ seg :: rest ->
      traverse before d = Some v ->
      getitem v (to_key seg) = Raise KeyError
      \/ getitem v (to_key seg) = Raise IndexError ->
      get_key key d = Return VNone) /\
  (get_key key d = Raise TypeError
   <-> key <> "/" /\ type_error_at (split_path key) d).
Proof.
  unfold get_key. destruct (String.eqb_spec key "/") as [->|Hne].
  - split; [left; eauto|]. repeat split; try congruence.
    intros [H _]. congruence.
  - split; [apply walk_returns_or_TypeError|]. split; [|split].
    + intros v _. apply walk_traverse.
    + intros before seg rest v _ -> Ht Hmiss.
      exact (walk_miss before seg rest d v Ht Hmiss).
    + rewrite walk_TypeError_iff. tauto.
Qed.

Lemma get_key_returns_or_TypeError_witness :
  get_key "a/0/b" (VDict [(KStr "a", VList [VDict [(KStr "b", VInt 5)]])])
  = Return (VInt 5) /\
  get_key "a/5" (VDict [(KStr "a", VList [VInt 1; VInt 2])]) = Return VNone /\
  get_key "a/b" (VDict [(KStr "c", VInt 1)]) = Return VNone.
Proof.
  split; [|split].
  - destruct (get_key_returns_or_TypeError "a/0/b"
                (VDict [(KStr "a", VList [VDict [(KStr "b", VInt 5)]])]))
      as (_ & Hvalue & _).
    apply Hvalue; [discriminate|reflexivity].
  - destruct (get_key_returns_or_TypeError "a/5"
                (VDict [(KStr "a", VList [VInt 1; VInt 2])]))
      as (_ & _ & Hmiss & _).
    apply (Hmiss ["a"] "5" [] (VList [VInt 1; VInt 2]));
      [discriminate|reflexivity|reflexivity|right; reflexivity].
  - destruct (get_key_returns_or_TypeError "a/b" (VDict [(KStr "c", VInt 1)]))
      as (_ & _ & Hmiss & _).
    apply (Hmiss [] "a" ["b"] (VDict [(KStr "c", VInt 1)]));
      [discriminate|reflexivity|reflexivity|left; reflexivity].
Defined.

(** C1 as stated fails: a scalar in the middle of the path makes [get_key]
    raise, and so does a string segment on a list. *)
Lemma get_key_raises_on_scalar :
  get_key "a/b" (VDict [(KStr "a", VInt 5)]) = Raise TypeError /\
  get_key "groups/x" (VDict [(KStr "groups", VList [VStr "a"])]) = Raise TypeError /\
  ~ (exists v, get_key "a/b" (VDict [(KStr "a", VInt 5)]) = Return v).
Proof.
  repeat split. intros [v H]. discriminate.
Qed.

(** ** The inventory builder *)

(** C7: without keys, or with an empty list of keys, the grouping keys are
    [vm-type], [groups], [vm-provider], in that order, for the inventory,
    its text and its temporary file alike. *)
Theorem default_grouping_keys (str : value -> string)
  (viewitems : inventory_t -> inventory_t) (self : LagoAnsible)
  (name : string) (body : TempFile.t -> exit_t * TempFile.t) :
  keys_or_default None = ["vm-type"; "groups"; "vm-provider"] /\
  keys_or_default (Some []) = ["vm-type"; "groups"; "vm-provider"] /\
  get_inventory str self None
    = get_inventory str self (Some ["vm-type"; "groups"; "vm-provider"]) /\
  get_inventory str self (Some [])
    = get_inventory str self (Some ["vm-type"; "groups"; "vm-provider"]) /\
  get_inventory_str str viewitems self None
    = get_inventory_str str viewitems self
        (Some ["vm-type"; "groups"; "vm-provider"]) /\
  get_inventory_str str viewitems self (Some [])
    = get_inventory_str str viewitems self
        (Some ["vm-type"; "groups"; "vm-provider"]) /\
  get_inventory_temp_file str viewitems self None name body
    = get_inventory_temp_file str viewitems self
        (Some ["vm-type"; "groups"; "vm-provider"]) name body /\
  get_inventory_temp_file str viewitems self (Some []) name body
    = get_inventory_temp_file str viewitems self
        (Some ["vm-type"; "groups"; "vm-provider"]) name body.
Proof. repeat split. Qed.

Section Grouping.

Variable str : value -> string.
Variable self : LagoAnsible.

Lemma add_all_app (a b : list (string * string)) (inventory : inventory_t) :
  add_all (a ++ b) inventory = add_all b (add_all a inventory).
Proof. apply fold_left_app. Qed.

Lemma add_all_elements (key entry : string) (l : list value) :
  forall inventory,
    fold_left (fun inventory sub_value =>
                 append_entry inventory (group_name str key sub_value) entry)
              l inventory
    = add_all (map (fun g => (g, entry)) (map (group_name str key) l)) inventory.
Proof.
  induction l as [|x l IH]; intros inventory; [reflexivity|].
  cbn. apply IH.
Qed.

(** One pass of the loop body for a key that resolves. *)
Lemma key_step (vm : VM.t) (key : string) (v : value) (inventory : inventory_t) :
  get_key key (VM.spec vm) = Return v ->
  match v with
  | VNone => Return inventory
  | VList sub_values =>
      Return (fold_left
                (fun inventory sub_value =>
                   append_entry inventory (group_name str key sub_value)
                                (_generate_entry self vm))
                sub_values inventory)
  | _ => Return (append_entry inventory (group_name str key v)
                              (_generate_entry self vm))
  end = Return (add_all (memberships str self vm key) inventory).
Proof.
  intros H. unfold memberships. rewrite H.
  destruct v; try reflexivity.
  cbn [groups_for]. rewrite add_all_elements. reflexivity.
Qed.

Lemma key_loop_spec (vm : VM.t) (keys : list string) :
  forall inventory,
    match key_loop str self vm keys inventory with
    | Return inventory' =>
        resolves vm keys = true /\
        inventory' = add_all (flat_map (memberships str self vm) keys) inventory
    | Raise _ => resolves vm keys = false
    end.
Proof.
  unfold key_loop.
  induction keys as [|key keys IH]; intros inventory; cbn [for_each].
  - split; reflexivity.
  - cbn [resolves forallb flat_map].
    destruct (get_key key (VM.spec vm)) as [v|e] eqn:Hk; cbn [bind]; [|reflexivity].
    rewrite (key_step vm key v inventory Hk). cbn [bind].
    specialize (IH (add_all (memberships str self vm key) inventory)).
    fold (resolves vm keys).
    destruct (for_each keys _ _); [|exact IH].
    destruct IH as [Hr ->]. split; [exact Hr|].
    rewrite add_all_app. reflexivity.
Qed.

Lemma vm_loop_spec (keys : list string) (vms : list VM.t) :
  forall inventory,
    match for_each vms (fun vm inventory => key_loop str self vm keys inventory) inventory with
    | Return inventory' =>
        forallb (fun vm => resolves vm keys) vms = true /\
        inventory' = add_all (flat_map (fun vm => flat_map (memberships str self vm) keys) vms)
                             inventory
    | Raise _ => forallb (fun vm => resolves vm keys) vms = false
    end.
Proof.
  induction vms as [|vm vms IH]; intros inventory; cbn [for_each].
  - split; reflexivity.
  - cbn [forallb flat_map].
    pose proof (key_loop_spec vm keys inventory) as Hk.
    destruct (key_loop str self vm keys inventory) as [inv1|e]; cbn [bind].
    + destruct Hk as [-> ->]. cbn [andb].
      specialize (IH (add_all (flat_map (memberships str self vm) keys) inventory)).
      destruct (for_each vms _ _); [|exact IH].
      destruct IH as [Hr ->]. split; [exact Hr|].
      rewrite add_all_app. reflexivity.
    + rewrite Hk. reflexivity.
Qed.

(** [get_inventory] returns exactly when every key resolves on every VM,
    and then it is the memberships appended one by one. *)
Lemma get_inventory_spec (keys : option (list string)) :
  match get_inventory str self keys with
  | Return inventory =>
      all_resolve self keys = true /\
      inventory = add_all (all_memberships str self (keys_or_default keys)) []
  | Raise _ => all_resolve self keys = false
  end.
Proof.
  exact (vm_loop_spec (keys_or_default keys) (get_vms (prefix self)) []).
Qed.

End Grouping.

(** *** What appending does to a group *)

Lemma hosts_of_append_same (inventory : inventory_t) (group entry : string) :
  hosts_of (append_entry inventory group entry) group
  = Some (hosts_or_empty inventory group ++ [entry]).
Proof.
  unfold hosts_or_empty, hosts_of.
  induction inventory as [|[g hosts] rest IH]; cbn.
  - rewrite String.eqb_refl. reflexivity.
  - destruct (String.eqb_spec g group) as [->|Hne]; cbn.
    + rewrite String.eqb_refl. reflexivity.
    + destruct (String.eqb_spec g group); [contradiction|]. exact IH.
Qed.

Lemma hosts_of_append_other (inventory : inventory_t) (group entry other : string) :
  group <> other ->
  hosts_of (append_entry inventory group entry) other = hosts_of inventory other.
Proof.
  intros Hne. unfold hosts_of.
  induction inventory as [|[g hosts] rest IH]; cbn.
  - destruct (String.eqb_spec group other); [contradiction|reflexivity].
  - destruct (String.eqb_spec g group) as [->|Hg]; cbn.
    + destruct (String.eqb_spec group other); [contradiction|reflexivity].
    + destruct (String.eqb_spec g other); [reflexivity|exact IH].
Qed.

Lemma hosts_of_add_all (group : string) (ms : list (string * string)) :
  forall inventory,
    hosts_of (add_all ms inventory) group
    = match entries_in group ms with
      | [] => hosts_of inventory group
      | entries => Some (hosts_or_empty inventory group ++ entries)
      end.
Proof.
  induction ms as [|[g e] ms IH]; intros inventory; [reflexivity|].
  cbn [add_all fold_left fst snd]. fold (add_all ms (append_entry inventory g e)).
  rewrite IH. unfold entries_in. cbn [filter fst].
  destruct (String.eqb_spec g group) as [->|Hne].
  - cbn [map snd]. unfold hosts_or_empty at 1.
    rewrite hosts_of_append_same.
    destruct (map snd (filter _ ms)) as [|e' es]; [reflexivity|].
    rewrite <- app_assoc. reflexivity.
  - unfold hosts_or_empty. rewrite (hosts_of_append_other _ _ _ _ Hne).
    reflexivity.
Qed.

(** C3, as the code has it: when every key resolves on every VM,
    [get_inventory] returns, and
    the hosts of a group are the entries of the VMs, in VM order and for
    each VM in key order, once for each time the group comes up: not at
    all for a [None] value, once per equal element for a list, once
    otherwise; a group that never comes up is not in the mapping, and
    nothing is deduplicated. *)
Theorem get_inventory_groups (str : value -> string) (self : LagoAnsible)
  (keys : option (list string)) :
  all_resolve self keys = true ->
  exists inventory,
    get_inventory str self keys = Return inventory /\
    forall group,
      hosts_of inventory group
      = match entries_in group (all_memberships str self (keys_or_default keys)) with
        | [] => None
        | entries => Some entries
        end.
Proof.
  intros Hall. pose proof (get_inventory_spec str self keys) as H.
  destruct (get_inventory str self keys) as [inventory|e]; [|congruence].
  destruct H as [_ ->]. eexists. split; [reflexivity|].
  intros group. rewrite hosts_of_add_all. reflexivity.
Qed.

Lemma get_inventory_groups_witness :
  exists inventory,
    get_inventory str_scalar two_vms (Some ["vm-type"]) = Return inventory /\
    hosts_of inventory "vm-type=x"
    = Some ["vm1 ansible_host=1.1.1.1 ansible_ssh_private_key_file=/k";
            "vm2 ansible_host=1.1.1.2 ansible_ssh_private_key_file=/k"] /\
    hosts_of inventory "vm-type=y"
    = Some ["vm2 ansible_host=1.1.1.2 ansible_ssh_private_key_file=/k"] /\
    hosts_of inventory "vm-type=None" = None.
Proof.
  destruct (get_inventory_groups str_scalar two_vms (Some ["vm-type"]))
    as (inventory & Hret & Hgroups); [reflexivity|].
  exists inventory. split; [exact Hret|].
  rewrite !Hgroups. repeat split.
Defined.

(** C3 as stated fails: a key that walks into a [None] of the spec is not
    a VM skipped for that key; [get_key] raises and so does
    [get_inventory], which returns no grouping at all. *)
Lemma get_inventory_raises_on_null :
  get_key "disks/0" (VDict [(KStr "disks", VNone)]) = Raise TypeError /\
  get_inventory str_scalar null_disks_vm (Some ["disks/0"]) = Raise TypeError /\
  ~ (exists inventory,
        get_inventory str_scalar null_disks_vm (Some ["disks/0"])
        = Return inventory).
Proof.
  repeat split. intros [inventory H]. discriminate.
Qed.

(** ** The INI text *)

Lemma insert_perm (x : string) (l : list string) : Permutation (x :: l) (insert x l).
Proof.
  induction l as [|y r IH]; cbn; [reflexivity|].
  destruct (String.leb x y); [reflexivity|].
  rewrite perm_swap. apply perm_skip. exact IH.
Qed.

Lemma sorted_perm (l : list string) : Permutation l (sorted l).
Proof.
  induction l as [|x l IH]; cbn; [constructor|].
  rewrite <- insert_perm. apply perm_skip. exact IH.
Qed.

Lemma insert_hd (x y : string) (l : list string) :
  string_le y x -> HdRel string_le y l -> HdRel string_le y (insert x l).
Proof.
  intros Hyx Hl. destruct l as [|z r]; cbn.
  - constructor. exact Hyx.
  - destruct (String.leb x z); constructor; [exact Hyx|].
    inversion Hl; assumption.
Qed.

Lemma insert_sorted (x : string) (l : list string) :
  Sorted string_le l -> Sorted string_le (insert x l).
Proof.
  induction 1 as [|y r Hr IH Hhd]; cbn.
  - repeat constructor.
  - destruct (String.leb x y) eqn:Hxy.
    + constructor; [constructor; assumption|]. constructor. exact Hxy.
    + constructor; [exact IH|]. apply insert_hd; [|exact Hhd].
      destruct (String.leb_total x y) as [H|H]; [congruence|exact H].
Qed.

Lemma sorted_sorted (l : list string) : Sorted string_le (sorted l).
Proof.
  induction l as [|x l IH]; cbn; [constructor|].
  apply insert_sorted. exact IH.
Qed.

Lemma append_each (hosts lines : list string) :
  fold_left (fun lines host => lines ++ [host]) hosts lines = lines ++ hosts.
Proof.
  revert lines. induction hosts as [|h hosts IH]; intros lines; cbn.
  - symmetry. apply app_nil_r.
  - rewrite IH, <- app_assoc. reflexivity.
Qed.

Lemma inventory_lines_blocks (inventory : inventory_t) :
  inventory_lines inventory = concat (map block inventory).
Proof.
  unfold inventory_lines.
  enough (H : forall lines,
             fold_left
               (fun lines group =>
                  fold_left (fun lines host => lines ++ [host])
                            (sorted (snd group))
                            (lines ++ [header (fst group)]))
               inventory lines
             = lines ++ concat (map block inventory)) by apply (H []).
  induction inventory as [|g rest IH]; intros lines; cbn.
  - symmetry. apply app_nil_r.
  - rewrite IH, append_each, <- !app_assoc. reflexivity.
Qed.

Lemma string_app_assoc (a b c : string) : ((a ++ b) ++ c = a ++ b ++ c)%string.
Proof. induction a as [|x a IH]; cbn; [reflexivity|]. rewrite IH. reflexivity. Qed.

Lemma string_app_nil_r (a : string) : (a ++ "")%string = a.
Proof. induction a as [|x a IH]; cbn; [reflexivity|]. rewrite IH. reflexivity. Qed.

Lemma concat_snoc (sep : string) (lines : list string) (last : string) :
  String.concat sep (lines ++ [last])
  = match lines with
    | [] => last
    | _ => (String.concat sep lines ++ sep ++ last)%string
    end.
Proof.
  induction lines as [|x lines IH]; [reflexivity|].
  destruct lines as [|y lines]; [reflexivity|].
  change (String.concat sep ((x :: y :: lines) ++ [last]))
    with (x ++ sep ++ String.concat sep ((y :: lines) ++ [last]))%string.
  rewrite IH.
  change (String.concat sep (x :: y :: lines))
    with (x ++ sep ++ String.concat sep (y :: lines))%string.
  rewrite !string_app_assoc. reflexivity.
Qed.

Lemma app_not_empty (a : string) (c : ascii) (b : string) :
  (a ++ String c b)%string <> "".
Proof. destruct a; discriminate. Qed.

Lemma entry_not_empty (self : LagoAnsible) (vm : VM.t) : _generate_entry self vm <> "".
Proof. apply app_not_empty. Qed.

(** Whatever holds of the appended entries holds of the hosts of the
    mapping. *)
Lemma append_entry_hosts (P : string -> Prop) (inventory : inventory_t)
  (group entry : string) :
  P entry ->
  Forall (fun g => Forall P (snd g)) inventory ->
  Forall (fun g => Forall P (snd g)) (append_entry inventory group entry).
Proof.
  intros He. induction 1 as [|[g hosts] rest Hg Hrest IH]; cbn.
  - repeat constructor. exact He.
  - destruct (String.eqb g group); constructor; cbn; auto.
    apply Forall_app. split; [exact Hg|]. repeat constructor. exact He.
Qed.

Lemma add_all_hosts (P : string -> Prop) (ms : list (string * string)) :
  Forall (fun m => P (snd m)) ms ->
  forall inventory,
    Forall (fun g => Forall P (snd g)) inventory ->
    Forall (fun g => Forall P (snd g)) (add_all ms inventory).
Proof.
  induction 1 as [|m ms Hm Hms IH]; intros inventory Hinv; [exact Hinv|].
  cbn. apply IH. apply append_entry_hosts; assumption.
Qed.

Lemma memberships_entries (str : value -> string) (self : LagoAnsible)
  (keys : list string) :
  Forall (fun m => exists vm, In vm (get_vms (prefix self))
                              /\ snd m = _generate_entry self vm)
         (all_memberships str self keys).
Proof.
  unfold all_memberships. apply Forall_flat_map. apply Forall_forall.
  intros vm Hvm. apply Forall_flat_map. apply Forall_forall. intros key _.
  unfold memberships. destruct (get_key key (VM.spec vm)); [|constructor].
  apply Forall_map. apply Forall_forall. intros g _. cbn. eauto.
Qed.

(** Every host in the inventory is the entry of one of the VMs. *)
Lemma get_inventory_hosts (str : value -> string) (self : LagoAnsible)
  (keys : option (list string)) (inventory : inventory_t) :
  get_inventory str self keys = Return inventory ->
  Forall (fun g => Forall (fun host => exists vm, In vm (get_vms (prefix self))
                                                  /\ host = _generate_entry self vm)
                          (snd g)) inventory.
Proof.
  intros H. pose proof (get_inventory_spec str self keys) as Hs.
  rewrite H in Hs. destruct Hs as [_ ->].
  apply add_all_hosts; [|constructor].
  exact (memberships_entries str self (keys_or_default keys)).
Qed.

(** *** The groups of the mapping *)

Lemma groups_append (inventory : inventory_t) (group entry : string) :
  map fst (append_entry inventory group entry)
  = if seen group (map fst inventory) then map fst inventory
    else map fst inventory ++ [group].
Proof.
  unfold seen. induction inventory as [|[g hosts] rest IH]; cbn; [reflexivity|].
  destruct (String.eqb g group); cbn; [reflexivity|].
  rewrite IH. destruct (existsb _ (map fst rest)); reflexivity.
Qed.

(** Whatever holds of the items of the mapping holds of them in the
    order of iteration. *)
Lemma viewitems_forall (viewitems : inventory_t -> inventory_t)
  (P : string * list string -> Prop) (inventory : inventory_t) :
  Permutation (viewitems inventory) inventory ->
  Forall P inventory -> Forall P (viewitems inventory).
Proof.
  intros Hperm H. rewrite Hperm. exact H.
Qed.

(** C5, as the code has it: the text is the blocks of the groups joined
    with single newlines. A block is the header [[group]] followed by the
    group's hosts sorted; the blocks stand in the order in which
    [viewitems()] yields the groups, whatever that order is; no line is
    empty, and the text ends with its last line, without a newline after
    it. *)
Theorem get_inventory_str_layout (str : value -> string)
  (viewitems : inventory_t -> inventory_t) (self : LagoAnsible)
  (keys : option (list string)) (inventory : inventory_t) :
  get_inventory str self keys = Return inventory ->
  Permutation (viewitems inventory) inventory ->
  exists blocks,
    get_inventory_str str viewitems self keys
      = Return (String.concat newline (concat blocks)) /\
    Forall2 rendered (viewitems inventory) blocks /\
    Forall (fun line => line <> "") (concat blocks) /\
    (forall lines last,
        concat blocks = lines ++ [last] ->
        exists before,
          String.concat newline (concat blocks) = (before ++ last)%string).
Proof.
  intros Hinv Hperm. exists (map block (viewitems inventory)). repeat split.
  - unfold get_inventory_str. rewrite Hinv. cbn [bind].
    rewrite inventory_lines_blocks. reflexivity.
  - clear Hinv Hperm.
    induction (viewitems inventory) as [|g rest IH]; constructor; [|exact IH].
    exists (sorted (snd g)). repeat split.
    + apply sorted_perm.
    + apply sorted_sorted.
  - apply Forall_concat. apply Forall_map.
    pose proof (get_inventory_hosts str self keys inventory Hinv) as Hh.
    apply (viewitems_forall viewitems _ _ Hperm) in Hh.
    eapply Forall_impl; [|exact Hh]. intros g Hg. constructor; [discriminate|].
    rewrite <- (sorted_perm (snd g)).
    eapply Forall_impl; [|exact Hg]. intros h (vm & _ & ->).
    apply entry_not_empty.
  - intros lines last ->. rewrite concat_snoc.
    destruct lines; [exists ""; reflexivity|].
    eexists. rewrite <- string_app_assoc. reflexivity.
Qed.

Lemma get_inventory_str_layout_witness :
  exists blocks,
    get_inventory_str str_scalar Dict27.viewitems two_vms
      (Some ["vm-type"; "groups"])
    = Return (String.concat newline (concat blocks)) /\
    Forall2 rendered
      [("groups=g",
        ["vm3 ansible_host=1.1.1.3 ansible_ssh_private_key_file=/k"]);
       ("vm-type=x",
        ["vm1 ansible_host=1.1.1.1 ansible_ssh_private_key_file=/k";
         "vm2 ansible_host=1.1.1.2 ansible_ssh_private_key_file=/k"]);
       ("vm-type=y",
        ["vm2 ansible_host=1.1.1.2 ansible_ssh_private_key_file=/k"])]
      blocks.
Proof.
  destruct (get_inventory_str_layout str_scalar Dict27.viewitems two_vms
              (Some ["vm-type"; "groups"])
              [("vm-type=x",
                ["vm1 ansible_host=1.1.1.1 ansible_ssh_private_key_file=/k";
                 "vm2 ansible_host=1.1.1.2 ansible_ssh_private_key_file=/k"]);
               ("vm-type=y",
                ["vm2 ansible_host=1.1.1.2 ansible_ssh_private_key_file=/k"]);
               ("groups=g",
                ["vm3 ansible_host=1.1.1.3 ansible_ssh_private_key_file=/k"])]
              eq_refl) as (blocks & Htext & Hblocks & _).
  - vm_compute.
    exact (Permutation_cons_append
             [("vm-type=x",
               ["vm1 ansible_host=1.1.1.1 ansible_ssh_private_key_file=/k";
                "vm2 ansible_host=1.1.1.2 ansible_ssh_private_key_file=/k"]);
              ("vm-type=y",
               ["vm2 ansible_host=1.1.1.2 ansible_ssh_private_key_file=/k"])]
             ("groups=g",
              ["vm3 ansible_host=1.1.1.3 ansible_ssh_private_key_file=/k"])).
  - exists blocks. split; [exact Htext|exact Hblocks].
Defined.

(** C5 as stated fails: with the lists [a] then [b] as the [vm-type] of
    one VM, the groups are built in that order, and the text has the
    group of [b] first. *)
Lemma groups_not_in_build_order :
  get_inventory str_scalar lettered_vm (Some ["vm-type"])
  = Return [("vm-type=a", [vm1_entry]); ("vm-type=b", [vm1_entry])] /\
  get_inventory_str str_scalar Dict27.viewitems lettered_vm (Some ["vm-type"])
  = Return (String.concat newline
              ["[vm-type=b]"; vm1_entry; "[vm-type=a]"; vm1_entry]).
Proof. split; vm_compute; reflexivity. Qed.

(** ** The temporary file *)

Lemma substring_empty (n m : nat) : substring n m "" = "".
Proof. destruct n, m; reflexivity. Qed.

Lemma substring_whole (s : string) : substring 0 (String.length s) s = s.
Proof. induction s as [|c s IH]; cbn; [|rewrite IH]; reflexivity. Qed.

Lemma write_fresh (name text : string) :
  TempFile.write (TempFile.NamedTemporaryFile name) text
  = TempFile.Build name text (Some EmptyString) (String.length text) false.
Proof.
  unfold TempFile.write, TempFile.NamedTemporaryFile.
  cbn [TempFile.name TempFile.content TempFile.on_disk TempFile.cursor
       TempFile.closed].
  rewrite !substring_empty, string_app_nil_r. reflexivity.
Qed.

(** With the text built, the generator reaches its [yield] with the text
    written, flushed and rewound. *)
Lemma before_yield_text (str : value -> string)
  (viewitems : inventory_t -> inventory_t) (self : LagoAnsible)
  (keys : option (list string)) (name text : string) :
  get_inventory_str str viewitems self keys = Return text ->
  before_yield str viewitems self keys name
  = (Return tt, TempFile.Build name text (Some text) 0 false).
Proof.
  intros Htext. unfold before_yield. rewrite Htext, write_fresh. reflexivity.
Qed.

(** The [with] statement then runs the body on that file and leaves
    through [__exit__]. *)
Lemma with_temp_file (str : value -> string)
  (viewitems : inventory_t -> inventory_t) (self : LagoAnsible)
  (keys : option (list string)) (name text : string)
  (body : TempFile.t -> exit_t * TempFile.t) :
  get_inventory_str str viewitems self keys = Return text ->
  get_inventory_temp_file str viewitems self keys name body
  = __exit__ (snd (body (TempFile.Build name text (Some text) 0 false)))
             (fst (body (TempFile.Build name text (Some text) 0 false))).
Proof.
  intros Htext. unfold get_inventory_temp_file.
  rewrite (before_yield_text str viewitems self keys name text Htext).
  destruct (body _); reflexivity.
Qed.

(** C8: when the inventory text can be built, the file handed to the
    caller holds exactly that text, the text has reached the file on disk,
    the cursor is at the beginning, the handle is open, and reading it
    whole gives the text. *)
Theorem temp_file_holds_inventory (str : value -> string)
  (viewitems : inventory_t -> inventory_t) (self : LagoAnsible)
  (keys : option (list string)) (name text : string) :
  get_inventory_str str viewitems self keys = Return text ->
  exists temp_file,
    before_yield str viewitems self keys name = (Return tt, temp_file) /\
    (forall body,
        get_inventory_temp_file str viewitems self keys name body
        = __exit__ (snd (body temp_file)) (fst (body temp_file))) /\
    TempFile.content temp_file = text /\
    TempFile.on_disk temp_file = Some text /\
    TempFile.cursor temp_file = 0 /\
    TempFile.closed temp_file = false /\
    fst (TempFile.read temp_file) = text.
Proof.
  intros Htext. eexists.
  split; [exact (before_yield_text str viewitems self keys name text Htext)|].
  repeat split.
  - intros body.
    exact (with_temp_file str viewitems self keys name text body Htext).
  - cbn. rewrite Nat.sub_0_r. apply substring_whole.
Qed.

Lemma temp_file_holds_inventory_witness :
  exists temp_file,
    before_yield str_scalar Dict27.viewitems two_vms (Some ["groups"])
      "/tmp/tmpq1w2e3"
    = (Return tt, temp_file) /\
    fst (TempFile.read temp_file)
    = String.concat newline
        ["[groups=g]"; "vm3 ansible_host=1.1.1.3 ansible_ssh_private_key_file=/k"].
Proof.
  destruct (temp_file_holds_inventory str_scalar Dict27.viewitems two_vms
              (Some ["groups"]) "/tmp/tmpq1w2e3"
              (String.concat newline
                 ["[groups=g]";
                  "vm3 ansible_host=1.1.1.3 ansible_ssh_private_key_file=/k"])
              eq_refl)
    as (temp_file & Hy & _ & _ & _ & _ & _ & Hread).
  exists temp_file. split; [exact Hy | exact Hread].
Defined.

(** C2 fails on the code: when the body raises, [__exit__] throws the
    exception into the generator, [temp_file.close()] is never reached,
    and the scope is left with the handle open and the file still on
    disk. *)
Theorem temp_file_left_open_on_exception :
  exists temp_file,
    get_inventory_temp_file str_scalar Dict27.viewitems two_vms (Some ["groups"])
      "/tmp/tmpq1w2e3" (fun f => (Exception ValueError, f))
    = (Raise ValueError, temp_file) /\
    TempFile.closed temp_file = false /\
    TempFile.on_disk temp_file
    = Some (String.concat newline
              ["[groups=g]";
               "vm3 ansible_host=1.1.1.3 ansible_ssh_private_key_file=/k"]).
Proof. eexists. repeat split. Qed.

(** ** Reading the INI text back *)

Lemma drop_bracket_cons (c : ascii) (rest : string) :
  rest <> "" ->
  drop_bracket (String c rest) = option_map (String c) (drop_bracket rest).
Proof. destruct rest; [contradiction|reflexivity]. Qed.

Lemma drop_bracket_close (g : string) : drop_bracket (g ++ "]") = Some g.
Proof.
  induction g as [|c g IH]; [reflexivity|].
  change (String c g ++ "]")%string with (String c (g ++ "]")).
  rewrite drop_bracket_cons, IH; [reflexivity|apply app_not_empty].
Qed.

Lemma header_name_header (g : string) : header_name (header g) = Some g.
Proof. cbn. apply drop_bracket_close. Qed.

Lemma has_char_app (c : ascii) (a b : string) :
  has_char c (a ++ b) = has_char c a || has_char c b.
Proof.
  induction a as [|x a IH]; cbn; [reflexivity|].
  rewrite IH. apply orb_assoc.
Qed.

Lemma header_no_newline (g : string) :
  has_char "010" g = false -> has_char "010" (header g) = false.
Proof.
  intros H. unfold header. cbn. rewrite has_char_app, H. reflexivity.
Qed.

Lemma split_app_sep (sep : ascii) (a rest : string) :
  has_char sep a = false ->
  split sep (a ++ String sep rest) = a :: split sep rest.
Proof.
  induction a as [|c a IH]; cbn.
  - intros _. rewrite Ascii.eqb_refl. reflexivity.
  - intros H. apply orb_false_iff in H as [Hc Ha].
    rewrite Hc, (IH Ha). reflexivity.
Qed.

Lemma split_concat (lines : list string) :
  lines <> [] ->
  Forall (fun line => has_char "010" line = false) lines ->
  split "010" (String.concat newline lines) = lines.
Proof.
  intros Hne Hall. induction Hall as [|x lines Hx Hall IH]; [contradiction|].
  destruct lines as [|y lines].
  - cbn. apply split_without_sep. exact Hx.
  - change (String.concat newline (x :: y :: lines))
      with (x ++ String "010" (String.concat newline (y :: lines)))%string.
    rewrite (split_app_sep _ _ _ Hx), IH; [reflexivity|discriminate].
Qed.

Lemma parse_hosts (hosts rest : list string) :
  Forall (fun line => is_header line = false) hosts ->
  parse_lines (hosts ++ rest)
  = (hosts ++ fst (parse_lines rest), snd (parse_lines rest)).
Proof.
  induction 1 as [|h hosts Hh Hhosts IH]; cbn [app parse_lines].
  - destruct (parse_lines rest); reflexivity.
  - rewrite IH. unfold is_header in Hh.
    destruct (header_name h); [discriminate|reflexivity].
Qed.

Lemma parse_blocks (inventory : inventory_t) :
  Forall (fun g => Forall (fun line => is_header line = false) (snd g)) inventory ->
  parse_lines (concat (map block inventory))
  = ([], map (fun g => (fst g, sorted (snd g))) inventory).
Proof.
  induction 1 as [|g rest Hg Hrest IH]; [reflexivity|].
  cbn [map concat block app]. cbn [parse_lines].
  rewrite parse_hosts, IH, header_name_header.
  - cbn. rewrite app_nil_r. reflexivity.
  - rewrite <- (sorted_perm (snd g)). exact Hg.
Qed.

Lemma hosts_of_sorted (inventory : inventory_t) (group : string) :
  hosts_of (map (fun g => (fst g, sorted (snd g))) inventory) group
  = option_map sorted (hosts_of inventory group).
Proof.
  unfold hosts_of. induction inventory as [|g rest IH]; cbn; [reflexivity|].
  destruct (String.eqb (fst g) group); [reflexivity|exact IH].
Qed.

Lemma line_safe_spec (inventory : inventory_t) :
  line_safe inventory = true ->
  Forall (fun g => has_char "010" (fst g) = false
                   /\ Forall (fun line => has_char "010" line = false
                                          /\ is_header line = false) (snd g))
         inventory.
Proof.
  unfold line_safe. rewrite forallb_forall, Forall_forall.
  intros H g Hg. specialize (H g Hg).
  apply andb_true_iff in H as [Hn Hh]. apply negb_true_iff in Hn.
  split; [exact Hn|]. rewrite forallb_forall in Hh. apply Forall_forall.
  intros line Hl. specialize (Hh line Hl). unfold host_line in Hh.
  apply andb_true_iff in Hh as [H1 H2].
  apply negb_true_iff in H1. apply negb_true_iff in H2. auto.
Qed.

Lemma seen_in (group : string) (groups : list string) :
  seen group groups = true <-> In group groups.
Proof.
  unfold seen. rewrite existsb_exists. split.
  - intros (h & Hin & Heq). apply String.eqb_eq in Heq. congruence.
  - intros Hin. exists group. split; [exact Hin|apply String.eqb_refl].
Qed.

Lemma append_entry_nodup (inventory : inventory_t) (group entry : string) :
  NoDup (map fst inventory) ->
  NoDup (map fst (append_entry inventory group entry)).
Proof.
  intros Hnd. rewrite groups_append.
  destruct (seen group (map fst inventory)) eqn:Hs; [exact Hnd|].
  apply NoDup_rev in Hnd. rewrite <- (rev_involutive (_ ++ [group])).
  apply NoDup_rev. rewrite rev_app_distr. cbn. constructor; [|exact Hnd].
  rewrite <- in_rev. intros Hin. apply seen_in in Hin. congruence.
Qed.

Lemma add_all_nodup (ms : list (string * string)) :
  forall inventory,
    NoDup (map fst inventory) -> NoDup (map fst (add_all ms inventory)).
Proof.
  induction ms as [|m ms IH]; intros inventory H; [exact H|].
  cbn. apply IH. apply append_entry_nodup. exact H.
Qed.

Lemma hosts_of_in (inventory : inventory_t) (group : string)
  (hosts : list string) :
  NoDup (map fst inventory) ->
  hosts_of inventory group = Some hosts <-> In (group, hosts) inventory.
Proof.
  unfold hosts_of. induction inventory as [|[g hs] rest IH]; cbn; intros Hnd.
  - split; [discriminate|contradiction].
  - apply NoDup_cons_iff in Hnd as [Hg Hnd].
    destruct (String.eqb_spec g group) as [->|Hne]; cbn.
    + split.
      * intros H. injection H as ->. left. reflexivity.
      * intros [H|H]; [congruence|].
        exfalso. apply Hg. apply (in_map fst) in H. exact H.
    + rewrite (IH Hnd). split; [auto|].
      intros [H|H]; [congruence|exact H].
Qed.

(** Looking a group up does not depend on the order of the items. *)
Lemma hosts_of_permuted (a b : inventory_t) (group : string) :
  NoDup (map fst a) -> Permutation a b -> hosts_of a group = hosts_of b group.
Proof.
  intros Ha Hp.
  assert (Hb : NoDup (map fst b))
    by exact (Permutation_NoDup (Permutation_map fst Hp) Ha).
  destruct (hosts_of a group) as [hosts|] eqn:Hh.
  - symmetry. apply (hosts_of_in b group hosts Hb).
    apply (Permutation_in _ Hp). apply (hosts_of_in a group hosts Ha). exact Hh.
  - destruct (hosts_of b group) as [hosts|] eqn:Hh'; [|reflexivity].
    apply (hosts_of_in b group hosts Hb) in Hh'.
    apply (Permutation_in _ (Permutation_sym Hp)) in Hh'.
    apply (hosts_of_in a group hosts Ha) in Hh'. congruence.
Qed.

Lemma get_inventory_nodup (str : value -> string) (self : LagoAnsible)
  (keys : option (list string)) (inventory : inventory_t) :
  get_inventory str self keys = Return inventory -> NoDup (map fst inventory).
Proof.
  intros H. pose proof (get_inventory_spec str self keys) as Hs.
  rewrite H in Hs. destruct Hs as [_ ->]. apply add_all_nodup. constructor.
Qed.

Lemma parse_rendered (items : inventory_t) :
  Forall (fun g => has_char "010" (fst g) = false
                   /\ Forall (fun line => has_char "010" line = false
                                          /\ is_header line = false) (snd g))
         items ->
  parse_ini (String.concat newline (inventory_lines items))
  = map (fun g => (fst g, sorted (snd g))) items.
Proof.
  intros Hsafe. unfold parse_ini. rewrite inventory_lines_blocks.
  destruct items as [|g rest]; [reflexivity|].
  rewrite split_concat.
  - rewrite parse_blocks; [reflexivity|].
    eapply Forall_impl; [|exact Hsafe]. intros g' [_ Hh].
    eapply Forall_impl; [|exact Hh]. intros line [_ H]. exact H.
  - discriminate.
  - apply Forall_concat. apply Forall_map.
    eapply Forall_impl; [|exact Hsafe]. intros g' [Hn Hh].
    constructor; [apply header_no_newline; exact Hn|].
    rewrite <- (sorted_perm (snd g')).
    eapply Forall_impl; [|exact Hh]. intros line [H _]. exact H.
Qed.

(** C9, as the code allows it: when no group name and no host entry holds
    a newline and no host entry reads as a header, parsing the text of
    [get_inventory_str] gives back the groups of [get_inventory], in the
    order in which the text has them, each with its hosts sorted; so the
    mapping is recovered up to the order of the groups and of the hosts. *)
Theorem ini_round_trip (str : value -> string)
  (viewitems : inventory_t -> inventory_t) (self : LagoAnsible)
  (keys : option (list string)) (inventory : inventory_t) :
  get_inventory str self keys = Return inventory ->
  Permutation (viewitems inventory) inventory ->
  line_safe inventory = true ->
  exists text,
    get_inventory_str str viewitems self keys = Return text /\
    parse_ini text
    = map (fun g => (fst g, sorted (snd g))) (viewitems inventory) /\
    recovers inventory (parse_ini text).
Proof.
  intros Hinv Hperm Hsafe. apply line_safe_spec in Hsafe.
  apply (viewitems_forall viewitems _ _ Hperm) in Hsafe.
  pose proof (parse_rendered (viewitems inventory) Hsafe) as Hparse.
  exists (String.concat newline (inventory_lines (viewitems inventory))).
  split; [|split].
  - unfold get_inventory_str. rewrite Hinv. reflexivity.
  - exact Hparse.
  - intros group. rewrite Hparse, hosts_of_sorted.
    rewrite <- (hosts_of_permuted inventory (viewitems inventory) group
                  (get_inventory_nodup str self keys inventory Hinv)
                  (Permutation_sym Hperm)).
    destruct (hosts_of inventory group); cbn; [apply sorted_perm|exact I].
Qed.

Lemma ini_round_trip_witness :
  exists text,
    get_inventory_str str_scalar Dict27.viewitems two_vms
      (Some ["vm-type"; "groups"]) = Return text /\
    parse_ini text
    = [("groups=g",
        ["vm3 ansible_host=1.1.1.3 ansible_ssh_private_key_file=/k"]);
       ("vm-type=x",
        ["vm1 ansible_host=1.1.1.1 ansible_ssh_private_key_file=/k";
         "vm2 ansible_host=1.1.1.2 ansible_ssh_private_key_file=/k"]);
       ("vm-type=y",
        ["vm2 ansible_host=1.1.1.2 ansible_ssh_private_key_file=/k"])].
Proof.
  destruct (ini_round_trip str_scalar Dict27.viewitems two_vms
              (Some ["vm-type"; "groups"])
              [("vm-type=x",
                ["vm1 ansible_host=1.1.1.1 ansible_ssh_private_key_file=/k";
                 "vm2 ansible_host=1.1.1.2 ansible_ssh_private_key_file=/k"]);
               ("vm-type=y",
                ["vm2 ansible_host=1.1.1.2 ansible_ssh_private_key_file=/k"]);
               ("groups=g",
                ["vm3 ansible_host=1.1.1.3 ansible_ssh_private_key_file=/k"])]
              eq_refl) as (text & Htext & Hparse & _).
  - vm_compute.
    exact (Permutation_cons_append
             [("vm-type=x",
               ["vm1 ansible_host=1.1.1.1 ansible_ssh_private_key_file=/k";
                "vm2 ansible_host=1.1.1.2 ansible_ssh_private_key_file=/k"]);
              ("vm-type=y",
               ["vm2 ansible_host=1.1.1.2 ansible_ssh_private_key_file=/k"])]
             ("groups=g",
              ["vm3 ansible_host=1.1.1.3 ansible_ssh_private_key_file=/k"])).
  - reflexivity.
  - exists text. split; [exact Htext | exact Hparse].
Defined.

(** C9 as stated fails: the two prefixes have different inventories (one
    group against two) and the same text, so no parser recovers both; the
    parser above reads two groups in the text of the first, whose
    inventory has neither of them. *)
Lemma ini_round_trip_fails :
  (exists inventory text,
      get_inventory str_scalar multiline_vm (Some ["vm-type"]) = Return inventory /\
      get_inventory_str str_scalar Dict27.viewitems multiline_vm (Some ["vm-type"])
      = Return text /\
      get_inventory_str str_scalar Dict27.viewitems listed_vm (Some ["vm-type"])
      = Return text /\
      get_inventory str_scalar listed_vm (Some ["vm-type"])
      = Return [("vm-type=x", [vm1_entry]); ("vm-type=y", [vm1_entry])] /\
      List.length inventory = 1 /\
      hosts_of inventory "vm-type=x" = None /\
      hosts_of (parse_ini text) "vm-type=x" = Some [vm1_entry] /\
      ~ recovers inventory (parse_ini text)).
Proof.
  eexists. eexists. split; [reflexivity|].
  split; [vm_compute; reflexivity|]. repeat split.
  intros H. specialize (H "vm-type=x"). vm_compute in H. exact H.
Qed.

(** ** More on the path resolver *)

Lemma split_not_nil (sep : ascii) (s : string) : split sep s <> [].
Proof.
  destruct s as [|c r]; cbn; [discriminate|].
  destruct (Ascii.eqb c sep); [discriminate|].
  destruct (split sep r); discriminate.
Qed.

Lemma split_app (sep : ascii) (a b : string) :
  split sep (a ++ String sep b) = split sep a ++ split sep b.
Proof.
  induction a as [|c a IH]; cbn.
  - rewrite Ascii.eqb_refl. reflexivity.
  - destruct (Ascii.eqb c sep); rewrite IH; [reflexivity|].
    pose proof (split_not_nil sep a) as Hne.
    destruct (split sep a); [contradiction|reflexivity].
Qed.

Lemma split_path_app (p q : string) :
  split_path (p ++ String "/" q) = split_path p ++ split "/" q.
Proof.
  unfold split_path. rewrite split_app.
  pose proof (split_not_nil "/" p) as Hne.
  destruct (split "/" p) as [|h t]; [contradiction|].
  destruct h; reflexivity.
Qed.

Lemma split_path_relative (q : string) :
  absolute q = false -> split_path q = match q with
                                       | EmptyString => []
                                       | _ => split "/" q
                                       end.
Proof.
  destruct q as [|c r]; [reflexivity|]. cbn [absolute]. intros Hc.
  unfold split_path. cbn [split]. rewrite Hc.
  destruct (split "/" r); reflexivity.
Qed.

Lemma get_key_relative (q : string) (d : value) :
  q <> "" -> absolute q = false -> get_key q d = walk (split "/" q) d.
Proof.
  intros Hne Habs. unfold get_key.
  rewrite (split_path_relative q Habs).
  destruct q as [|c r]; [contradiction|].
  cbn [absolute] in Habs. cbn [String.eqb]. rewrite Habs. reflexivity.
Qed.

Lemma joined_not_root (p : string) (c : ascii) (r : string) :
  String.eqb (p ++ String "/" (String c r)) "/" = false.
Proof.
  destruct p as [|a p]; cbn.
  - reflexivity.
  - destruct (Ascii.eqb a "/"); [|reflexivity]. destruct p; reflexivity.
Qed.

Lemma get_key_joined (p q : string) (d : value) :
  q <> "" ->
  get_key (p ++ String "/" q) d = walk (split_path p ++ split "/" q) d.
Proof.
  intros Hne. destruct q as [|c r]; [contradiction|].
  unfold get_key. rewrite joined_not_root, split_path_app. reflexivity.
Qed.

Lemma walk_app (before rest : list string) :
  forall d v, traverse before d = Some v -> walk (before ++ rest) d = walk rest v.
Proof.
  induction before as [|b before IH]; intros d v H; cbn in *.
  - congruence.
  - destruct (getitem d (to_key b)); [exact (IH _ _ H)|discriminate].
Qed.

Lemma traverse_app (before rest : list string) :
  forall d w,
    traverse (before ++ rest) d = Some w ->
    exists v, traverse before d = Some v /\ traverse rest v = Some w.
Proof.
  induction before as [|b before IH]; intros d w H; cbn in *.
  - eauto.
  - destruct (getitem d (to_key b)); [exact (IH _ _ H)|discriminate].
Qed.

(** A walk that ends on a value other than [None] has made every
    subscript on its way. *)
Lemma walk_found (path : list string) :
  forall d v, walk path d = Return v -> v <> VNone -> traverse path d = Some v.
Proof.
  induction path as [|seg rest IH]; intros d v H Hv; cbn in *.
  - congruence.
  - destruct (getitem d (to_key seg)) as [x|[]]; try congruence.
    exact (IH _ _ H Hv).
Qed.

Lemma get_key_found (p : string) (d v : value) :
  p <> "/" -> get_key p d = Return v -> v <> VNone ->
  traverse (split_path p) d = Some v.
Proof.
  intros Hp H Hv. unfold get_key in H.
  destruct (String.eqb_spec p "/"); [contradiction|].
  exact (walk_found _ _ _ H Hv).
Qed.

(** X1: a leading slash is optional: a path that does not start with a
    slash resolves the same with one put in front. *)
Theorem get_key_leading_slash (p : string) (d : value) :
  absolute p = false -> get_key ("/" ++ p) d = get_key p d.
Proof.
  intros Habs. destruct p as [|c r]; [reflexivity|].
  rewrite (get_key_relative (String c r) d); [|discriminate|exact Habs].
  unfold get_key.
  change ("/" ++ String c r)%string with ("" ++ String "/" (String c r))%string.
  rewrite joined_not_root, split_path_app. reflexivity.
Qed.

Lemma get_key_leading_slash_witness :
  get_key "/a/0" (VDict [(KStr "a", VList [VInt 7])])
  = get_key "a/0" (VDict [(KStr "a", VList [VInt 7])]).
Proof.
  apply (get_key_leading_slash "a/0"). reflexivity.
Defined.

Lemma get_key_under (p q : string) (d v : value) :
  p <> "/" -> q <> "" -> absolute q = false ->
  get_key p d = Return v -> v <> VNone ->
  get_key (p ++ "/" ++ q) d = get_key q v.
Proof.
  intros Hp Hq Habs Hv Hnone.
  change (p ++ "/" ++ q)%string with (p ++ String "/" q)%string.
  rewrite (get_key_joined p q d Hq), (get_key_relative q v Hq Habs).
  apply walk_app. exact (get_key_found p d v Hp Hv Hnone).
Qed.

(** X2: paths compose: when [p] resolves to a value other than [None] and
    [q] is a non-empty path without a leading slash, [p/q] resolves in the
    whole structure as [q] does in that value. *)
Theorem get_key_compose (p q : string) (d v : value) :
  p <> "/" -> q <> "" -> absolute q = false ->
  get_key p d = Return v -> v <> VNone ->
  get_key (p ++ "/" ++ q) d = get_key q v.
Proof. exact (get_key_under p q d v). Qed.

Lemma get_key_compose_witness :
  get_key "a/0/b" (VDict [(KStr "a", VList [VDict [(KStr "b", VInt 5)]])])
  = get_key "b" (VDict [(KStr "b", VInt 5)]).
Proof.
  apply (get_key_compose "a/0" "b"
           (VDict [(KStr "a", VList [VDict [(KStr "b", VInt 5)]])])
           (VDict [(KStr "b", VInt 5)]));
    try discriminate; reflexivity.
Defined.

(** X3: a path that resolves to a value other than [None] resolves at
    every cut: when [p/q] gives [w], [p] gives some value other than
    [None], and [q] gives [w] in that value. *)
Theorem get_key_decompose (p q : string) (d w : value) :
  p <> "/" -> q <> "" -> absolute q = false ->
  get_key (p ++ "/" ++ q) d = Return w -> w <> VNone ->
  exists v, get_key p d = Return v /\ v <> VNone /\ get_key q v = Return w.
Proof.
  intros Hp Hq Habs Hw Hnone.
  change (p ++ "/" ++ q)%string with (p ++ String "/" q)%string in Hw.
  rewrite (get_key_joined p q d Hq) in Hw.
  apply walk_found in Hw; [|exact Hnone].
  destruct (traverse_app _ _ _ _ Hw) as (v & Hv & Hrest).
  exists v. split; [|split].
  - unfold get_key. destruct (String.eqb_spec p "/"); [contradiction|].
    exact (walk_traverse _ _ _ Hv).
  - intros ->. pose proof (split_not_nil "/" q) as Hne.
    destruct (split "/" q); [contradiction|]. cbn in Hrest. discriminate.
  - rewrite (get_key_relative q v Hq Habs). exact (walk_traverse _ _ _ Hrest).
Qed.

Lemma get_key_decompose_witness :
  exists v,
    get_key "a/0" (VDict [(KStr "a", VList [VDict [(KStr "b", VInt 5)]])])
    = Return v /\ v <> VNone /\ get_key "b" v = Return (VInt 5).
Proof.
  apply (get_key_decompose "a/0" "b"
           (VDict [(KStr "a", VList [VDict [(KStr "b", VInt 5)]])]) (VInt 5));
    try discriminate; reflexivity.
Defined.

Lemma int_segment (seg : string) (n : Z) :
  Py.int seg = Some n -> seg <> "" /\ absolute seg = false.
Proof.
  intros H. pose proof (int_no_slash _ _ H) as Hs.
  destruct seg as [|c r]; [discriminate|]. split; [discriminate|].
  cbn in Hs |- *. apply orb_false_iff in Hs as [Hc _]. exact Hc.
Qed.

(** One integer segment below a path that resolves to a value other than
    [None]: the subscript of that value. *)
Lemma get_key_subscript (p seg : string) (n : Z) (d v : value) :
  p <> "/" -> get_key p d = Return v -> v <> VNone ->
  Py.int seg = Some n ->
  get_key (p ++ "/" ++ seg) d
  = match getitem v (KInt n) with
    | Return x => Return x
    | Raise KeyError | Raise IndexError => Return VNone
    | Raise e => Raise e
    end.
Proof.
  intros Hp Hv Hnone Hint. destruct (int_segment seg n Hint) as [Hne Habs].
  rewrite (get_key_under p seg d v Hp Hne Habs Hv Hnone).
  rewrite (get_key_int seg n v Hint). cbn [walk]. unfold to_key. rewrite Hint.
  destruct (getitem v (KInt n)) as [x|[]]; reflexivity.
Qed.

Lemma index_front {A : Type} (l : list A) (n : Z) (dflt : A) :
  (0 <= n < Z.of_nat (List.length l))%Z ->
  index l n = Some (nth (Z.to_nat n) l dflt).
Proof.
  intros [Hlo Hhi]. unfold index.
  destruct (Z.leb_spec 0 n) as [_|H]; [|lia].
  apply nth_error_nth'. lia.
Qed.

Lemma index_outside {A : Type} (l : list A) (n : Z) :
  (n < - Z.of_nat (List.length l) \/ Z.of_nat (List.length l) <= n)%Z ->
  index l n = None.
Proof.
  intros H. unfold index.
  destruct (Z.leb_spec 0 n) as [Hn|Hn].
  - apply nth_error_None. lia.
  - destruct (Z.leb_spec (- Z.of_nat (List.length l)) n) as [H'|_]; [lia|].
    reflexivity.
Qed.

(** X4: an integer segment from [0] up to the length of a list, at any
    depth, resolves to the element at that position. *)
Theorem get_key_index_in_range (p seg : string) (n : Z) (d : value)
  (l : list value) :
  p <> "/" -> get_key p d = Return (VList l) ->
  Py.int seg = Some n ->
  (0 <= n < Z.of_nat (List.length l))%Z ->
  get_key (p ++ "/" ++ seg) d = Return (nth (Z.to_nat n) l VNone).
Proof.
  intros Hp Hl Hint Hn.
  rewrite (get_key_subscript p seg n d (VList l) Hp Hl ltac:(discriminate) Hint).
  cbn [getitem]. rewrite (index_front l n VNone Hn). reflexivity.
Qed.

Lemma get_key_index_in_range_witness :
  get_key "a/1" (VDict [(KStr "a", VList [VInt 1; VInt 2])]) = Return (VInt 2).
Proof.
  apply (get_key_index_in_range "a" "1" 1
           (VDict [(KStr "a", VList [VInt 1; VInt 2])]) [VInt 1; VInt 2]);
    [discriminate|reflexivity|reflexivity|simpl; lia].
Defined.

(** X5: an integer segment past either end of a list, at any depth,
    resolves to [None]; nothing is raised. *)
Theorem get_key_index_out_of_range (p seg : string) (n : Z) (d : value)
  (l : list value) :
  p <> "/" -> get_key p d = Return (VList l) ->
  Py.int seg = Some n ->
  (n < - Z.of_nat (List.length l) \/ Z.of_nat (List.length l) <= n)%Z ->
  get_key (p ++ "/" ++ seg) d = Return VNone.
Proof.
  intros Hp Hl Hint Hn.
  rewrite (get_key_subscript p seg n d (VList l) Hp Hl ltac:(discriminate) Hint).
  cbn [getitem]. rewrite (index_outside l n Hn). reflexivity.
Qed.

Lemma get_key_index_out_of_range_witness :
  get_key "a/5" (VDict [(KStr "a", VList [VInt 1; VInt 2])]) = Return VNone /\
  get_key "a/-3" (VDict [(KStr "a", VList [VInt 1; VInt 2])]) = Return VNone.
Proof.
  split.
  - apply (get_key_index_out_of_range "a" "5" 5
             (VDict [(KStr "a", VList [VInt 1; VInt 2])]) [VInt 1; VInt 2]);
      [discriminate|reflexivity|reflexivity|simpl; lia].
  - apply (get_key_index_out_of_range "a" "-3" (-3)
             (VDict [(KStr "a", VList [VInt 1; VInt 2])]) [VInt 1; VInt 2]);
      [discriminate|reflexivity|reflexivity|simpl; lia].
Defined.

Lemma chars_nth (s : string) :
  forall k, nth_error (chars s) k
            = option_map (fun c => String c EmptyString) (String.get k s).
Proof.
  unfold chars. induction s as [|c s IH]; intros [|k]; cbn; try reflexivity.
  apply IH.
Qed.

Lemma chars_length (s : string) : List.length (chars s) = String.length s.
Proof.
  unfold chars. rewrite length_map.
  induction s as [|c s IH]; cbn; [|rewrite IH]; reflexivity.
Qed.

(** X6: a string value is subscripted like a list: an integer segment
    within its length resolves to the one-character string at that
    position. *)
Theorem get_key_index_in_string (p seg : string) (n : Z) (d : value) (s : string) :
  p <> "/" -> get_key p d = Return (VStr s) ->
  Py.int seg = Some n ->
  (0 <= n < Z.of_nat (String.length s))%Z ->
  exists c,
    String.get (Z.to_nat n) s = Some c /\
    get_key (p ++ "/" ++ seg) d = Return (VStr (String c EmptyString)).
Proof.
  intros Hp Hs Hint Hn.
  rewrite (get_key_subscript p seg n d (VStr s) Hp Hs ltac:(discriminate) Hint).
  cbn [getitem]. unfold index.
  destruct (Z.leb_spec 0 n) as [_|H]; [|lia].
  rewrite chars_nth.
  destruct (String.get (Z.to_nat n) s) as [c|] eqn:Hc.
  - exists c. split; reflexivity.
  - exfalso. pose proof (chars_nth s (Z.to_nat n)) as Hk. rewrite Hc in Hk.
    apply nth_error_None in Hk. rewrite chars_length in Hk. lia.
Qed.

Lemma get_key_index_in_string_witness :
  get_key "vm-type/0" (VDict [(KStr "vm-type", VStr "default")])
  = Return (VStr "d").
Proof.
  destruct (get_key_index_in_string "vm-type" "0" 0
              (VDict [(KStr "vm-type", VStr "default")]) "default")
    as (c & Hc & Hget);
    [discriminate|reflexivity|reflexivity|simpl; lia|].
  injection Hc as <-. exact Hget.
Defined.

(** X7: a trailing slash is not dropped: it asks the value the path
    resolves to for the key [""], which gives [None] on a dict without
    that key and raises [TypeError] on a list, a string or a scalar. *)
Theorem get_key_trailing_slash (p : string) (d v : value) :
  p <> "" -> p <> "/" ->
  get_key p d = Return v -> v <> VNone ->
  get_key (p ++ "/") d
  = match v with
    | VDict items =>
        match dict_get items (KStr "") with
        | Some x => Return x
        | None => Return VNone
        end
    | _ => Raise TypeError
    end.
Proof.
  intros Hne Hp Hv Hnone.
  assert (Hkey : get_key (p ++ "/") d = walk (split_path p ++ [""]) d).
  { unfold get_key. rewrite (split_path_app p "").
    destruct p as [|a p]; [contradiction|]. cbn [append String.eqb].
    destruct (Ascii.eqb_spec a "/") as [->|_]; [|reflexivity].
    destruct p; [congruence|reflexivity]. }
  rewrite Hkey, (walk_app _ [""] d v (get_key_found p d v Hp Hv Hnone)).
  destruct v as [| | | | |items]; try reflexivity; try contradiction.
  cbn. destruct (dict_get items (KStr "")); reflexivity.
Qed.

Lemma get_key_trailing_slash_witness :
  get_key "a/" (VDict [(KStr "a", VDict [(KStr "b", VInt 5)])]) = Return VNone /\
  get_key "a/" (VDict [(KStr "a", VList [VInt 1])]) = Raise TypeError.
Proof.
  split.
  - apply (get_key_trailing_slash "a"
             (VDict [(KStr "a", VDict [(KStr "b", VInt 5)])])
             (VDict [(KStr "b", VInt 5)])); try discriminate; reflexivity.
  - apply (get_key_trailing_slash "a" (VDict [(KStr "a", VList [VInt 1])])
             (VList [VInt 1])); try discriminate; reflexivity.
Defined.

(** ** More on the inventory builder *)

Lemma get_key_raise (key : string) (d : value) (e : exn) :
  get_key key d = Raise e -> e = TypeError.
Proof.
  unfold get_key. destruct (String.eqb key "/"); [discriminate|].
  intros H. destruct (walk_returns_or_TypeError (split_path key) d) as [[v Hv]|Hr];
    congruence.
Qed.

Lemma for_each_raise {A S : Type} (P : exn -> Prop) (body : A -> S -> result S)
  (xs : list A) :
  (forall x s e, body x s = Raise e -> P e) ->
  forall s e, for_each xs body s = Raise e -> P e.
Proof.
  intros Hbody. induction xs as [|x xs IH]; intros s e H; cbn in H.
  - discriminate.
  - destruct (body x s) as [s1|e1] eqn:Hx; cbn in H.
    + exact (IH _ _ H).
    + injection H as <-. exact (Hbody _ _ _ Hx).
Qed.

Lemma get_inventory_raise (str : value -> string) (self : LagoAnsible)
  (keys : option (list string)) (e : exn) :
  get_inventory str self keys = Raise e -> e = TypeError.
Proof.
  unfold get_inventory. apply (for_each_raise (fun x => x = TypeError)).
  intros vm inventory e1. apply (for_each_raise (fun x => x = TypeError)).
  intros key inventory1 e2 H.
  destruct (get_key key (VM.spec vm)) as [v|e3] eqn:Hk; cbn in H.
  - destruct v; discriminate.
  - injection H as <-. exact (get_key_raise _ _ _ Hk).
Qed.

Lemma get_inventory_fails (str : value -> string) (self : LagoAnsible)
  (keys : option (list string)) :
  all_resolve self keys = false ->
  get_inventory str self keys = Raise TypeError.
Proof.
  intros Hall. pose proof (get_inventory_spec str self keys) as Hs.
  destruct (get_inventory str self keys) as [inventory|e] eqn:Hinv.
  - destruct Hs as [Ht _]. congruence.
  - rewrite (get_inventory_raise str self keys e Hinv). reflexivity.
Qed.

(** X8: one key that cannot be walked on one VM fails the whole
    inventory: [get_inventory] and [get_inventory_str] both raise
    [TypeError], and no partial result is returned. *)
Theorem get_inventory_all_or_nothing (str : value -> string)
  (viewitems : inventory_t -> inventory_t) (self : LagoAnsible)
  (keys : option (list string)) :
  all_resolve self keys = false ->
  get_inventory str self keys = Raise TypeError /\
  get_inventory_str str viewitems self keys = Raise TypeError.
Proof.
  intros Hall. pose proof (get_inventory_fails str self keys Hall) as H.
  split; [exact H|]. unfold get_inventory_str. rewrite H. reflexivity.
Qed.

Lemma get_inventory_all_or_nothing_witness :
  get_inventory str_scalar two_vms (Some ["vm-type/name"]) = Raise TypeError /\
  get_inventory_str str_scalar Dict27.viewitems two_vms (Some ["vm-type/name"])
  = Raise TypeError.
Proof.
  apply (get_inventory_all_or_nothing str_scalar Dict27.viewitems two_vms
           (Some ["vm-type/name"])).
  reflexivity.
Defined.

(** X9: when the inventory cannot be built, the temporary file has
    already been created: the body of the [with] statement never runs,
    [TypeError] is raised, and the file is left open and on disk, empty. *)
Theorem temp_file_left_open_on_build_failure (str : value -> string)
  (viewitems : inventory_t -> inventory_t) (self : LagoAnsible)
  (keys : option (list string)) (name : string)
  (body : TempFile.t -> exit_t * TempFile.t) :
  all_resolve self keys = false ->
  get_inventory_temp_file str viewitems self keys name body
  = (Raise TypeError, TempFile.NamedTemporaryFile name) /\
  TempFile.closed (TempFile.NamedTemporaryFile name) = false /\
  TempFile.on_disk (TempFile.NamedTemporaryFile name) = Some EmptyString.
Proof.
  intros Hall. repeat split.
  unfold get_inventory_temp_file, before_yield, get_inventory_str.
  rewrite (get_inventory_fails str self keys Hall). reflexivity.
Qed.

Lemma temp_file_left_open_on_build_failure_witness :
  get_inventory_temp_file str_scalar Dict27.viewitems two_vms
    (Some ["vm-type/name"]) "/tmp/tmpq1w2e3"
    (fun f => (Normal, snd (TempFile.read f)))
  = (Raise TypeError, TempFile.NamedTemporaryFile "/tmp/tmpq1w2e3").
Proof.
  apply (temp_file_left_open_on_build_failure str_scalar Dict27.viewitems
           two_vms (Some ["vm-type/name"]) "/tmp/tmpq1w2e3").
  reflexivity.
Defined.

(** X10: an exception raised in the body of the [with] statement is not
    swallowed: it leaves the statement unchanged, and the file is left as
    the body left it. *)
Theorem temp_file_exception_propagates (str : value -> string)
  (viewitems : inventory_t -> inventory_t) (self : LagoAnsible)
  (keys : option (list string)) (name text : string)
  (body : TempFile.t -> exit_t * TempFile.t) (e : exn) (after : TempFile.t) :
  get_inventory_str str viewitems self keys = Return text ->
  body (TempFile.Build name text (Some text) 0 false) = (Exception e, after) ->
  get_inventory_temp_file str viewitems self keys name body = (Raise e, after).
Proof.
  intros Htext Hbody.
  rewrite (with_temp_file str viewitems self keys name text body Htext), Hbody.
  reflexivity.
Qed.

Lemma temp_file_exception_propagates_witness :
  exists after,
    get_inventory_temp_file str_scalar Dict27.viewitems two_vms (Some ["groups"])
      "/tmp/tmpq1w2e3" (fun f => (Exception KeyError, snd (TempFile.read f)))
    = (Raise KeyError, after) /\
    TempFile.closed after = false.
Proof.
  eexists. split.
  - apply (temp_file_exception_propagates str_scalar Dict27.viewitems two_vms
             (Some ["groups"]) "/tmp/tmpq1w2e3"
             (String.concat newline
                ["[groups=g]";
                 "vm3 ansible_host=1.1.1.3 ansible_ssh_private_key_file=/k"])
             (fun f => (Exception KeyError, snd (TempFile.read f))) KeyError);
      reflexivity.
  - reflexivity.
Defined.

(** X11: leaving the body of the [with] statement without an exception,
    at its end or early, closes the handle and deletes the file, when the
    body has left the file open and in its place; when the body has taken
    the file away and left the handle open, closing raises [OSError]. *)
Theorem temp_file_released_on_return (str : value -> string)
  (viewitems : inventory_t -> inventory_t) (self : LagoAnsible)
  (keys : option (list string)) (name text : string)
  (body : TempFile.t -> exit_t * TempFile.t) (how : exit_t)
  (after : TempFile.t) :
  get_inventory_str str viewitems self keys = Return text ->
  body (TempFile.Build name text (Some text) 0 false) = (how, after) ->
  how = Normal \/ how = EarlyExit ->
  TempFile.closed after = false ->
  exists temp_file,
    get_inventory_temp_file str viewitems self keys name body
    = (match TempFile.on_disk after with
       | Some _ => Return tt
       | None => Raise OSError
       end, temp_file) /\
    TempFile.closed temp_file = true /\
    TempFile.on_disk temp_file = None.
Proof.
  intros Htext Hbody Hhow Hopen.
  rewrite (with_temp_file str viewitems self keys name text body Htext), Hbody.
  cbn [fst snd].
  destruct Hhow as [-> | ->]; cbn [__exit__]; unfold after_yield, TempFile.close;
    rewrite Hopen; destruct (TempFile.on_disk after); eexists; repeat split.
Qed.

Lemma temp_file_released_on_return_witness :
  (exists temp_file,
      get_inventory_temp_file str_scalar Dict27.viewitems two_vms
        (Some ["groups"]) "/tmp/tmpq1w2e3" (fun f => (EarlyExit, f))
      = (Return tt, temp_file) /\
      TempFile.closed temp_file = true /\
      TempFile.on_disk temp_file = None) /\
  (exists temp_file,
      get_inventory_temp_file str_scalar Dict27.viewitems two_vms
        (Some ["groups"]) "/tmp/tmpq1w2e3"
        (fun f => (Normal,
                   TempFile.Build (TempFile.name f) (TempFile.content f) None
                                  (TempFile.cursor f) false))
      = (Raise OSError, temp_file) /\
      TempFile.closed temp_file = true).
Proof.
  split.
  - apply (temp_file_released_on_return str_scalar Dict27.viewitems two_vms
             (Some ["groups"]) "/tmp/tmpq1w2e3"
             (String.concat newline
                ["[groups=g]";
                 "vm3 ansible_host=1.1.1.3 ansible_ssh_private_key_file=/k"])
             (fun f => (EarlyExit, f)) EarlyExit
             (TempFile.Build "/tmp/tmpq1w2e3"
                (String.concat newline
                   ["[groups=g]";
                    "vm3 ansible_host=1.1.1.3 ansible_ssh_private_key_file=/k"])
                (Some (String.concat newline
                         ["[groups=g]";
                          "vm3 ansible_host=1.1.1.3 ansible_ssh_private_key_file=/k"]))
                0 false));
      [reflexivity|reflexivity|right; reflexivity|reflexivity].
  - destruct (temp_file_released_on_return str_scalar Dict27.viewitems two_vms
                (Some ["groups"]) "/tmp/tmpq1w2e3"
                (String.concat newline
                   ["[groups=g]";
                    "vm3 ansible_host=1.1.1.3 ansible_ssh_private_key_file=/k"])
                (fun f => (Normal,
                           TempFile.Build (TempFile.name f) (TempFile.content f)
                                          None (TempFile.cursor f) false))
                Normal
                (TempFile.Build "/tmp/tmpq1w2e3"
                   (String.concat newline
                      ["[groups=g]";
                       "vm3 ansible_host=1.1.1.3 ansible_ssh_private_key_file=/k"])
                   None 0 false))
      as (temp_file & Hrun & Hclosed & _);
      [reflexivity|reflexivity|left; reflexivity|reflexivity|].
    exists temp_file. split; [exact Hrun|exact Hclosed].
Defined.

(** *** What every inventory satisfies *)

(** Each group holds an entry that was appended to it. *)
Lemma append_entry_member (all : list (string * string)) (inventory : inventory_t)
  (group entry : string) :
  In (group, entry) all ->
  Forall (fun g => exists e, In e (snd g) /\ In (fst g, e) all) inventory ->
  Forall (fun g => exists e, In e (snd g) /\ In (fst g, e) all)
         (append_entry inventory group entry).
Proof.
  intros Hin. induction 1 as [|[g hosts] rest Hg Hrest IH]; cbn.
  - constructor; [|constructor]. exists entry. cbn. auto.
  - destruct (String.eqb g group); constructor; auto.
    destruct Hg as (e & He & Hall). exists e. cbn in *. split; [|exact Hall].
    apply in_or_app. auto.
Qed.

Lemma add_all_member (all ms : list (string * string)) :
  incl ms all ->
  forall inventory,
    Forall (fun g => exists e, In e (snd g) /\ In (fst g, e) all) inventory ->
    Forall (fun g => exists e, In e (snd g) /\ In (fst g, e) all)
           (add_all ms inventory).
Proof.
  induction ms as [|[g e] ms IH]; intros Hincl inventory H; [exact H|].
  cbn. apply IH.
  - intros m Hm. apply Hincl. right. exact Hm.
  - apply append_entry_member; [|exact H]. apply Hincl. left. reflexivity.
Qed.

Lemma in_all_memberships (str : value -> string) (self : LagoAnsible)
  (keys : list string) (group entry : string) :
  In (group, entry) (all_memberships str self keys) ->
  exists vm key v,
    In vm (get_vms (prefix self)) /\ In key keys /\
    get_key key (VM.spec vm) = Return v /\
    In group (groups_for str key v) /\
    entry = _generate_entry self vm.
Proof.
  unfold all_memberships. intros H.
  apply in_flat_map in H as (vm & Hvm & H).
  apply in_flat_map in H as (key & Hkey & H).
  unfold memberships in H.
  destruct (get_key key (VM.spec vm)) as [v|] eqn:Hk; [|contradiction].
  apply in_map_iff in H as (g & Heq & Hg). injection Heq as -> <-.
  exists vm, key, v. auto.
Qed.

(** X12: in every inventory the groups are distinct, and each group comes
    from a VM of the prefix and one of the keys in use: the key resolves
    on that VM's spec to a value that gives the group its name, and the
    VM's entry is among the hosts of the group; so no group is empty and
    no group stands for a missing value. *)
Theorem get_inventory_well_formed (str : value -> string) (self : LagoAnsible)
  (keys : option (list string)) (inventory : inventory_t) :
  get_inventory str self keys = Return inventory ->
  NoDup (map fst inventory) /\
  Forall (fun g =>
            exists vm key v,
              In vm (get_vms (prefix self)) /\
              In key (keys_or_default keys) /\
              get_key key (VM.spec vm) = Return v /\
              In (fst g) (groups_for str key v) /\
              In (_generate_entry self vm) (snd g))
         inventory.
Proof.
  intros H. pose proof (get_inventory_spec str self keys) as Hs.
  rewrite H in Hs. destruct Hs as [_ ->]. split.
  - apply add_all_nodup. constructor.
  - eapply Forall_impl;
      [|apply (add_all_member (all_memberships str self (keys_or_default keys)));
        [apply incl_refl|constructor]].
    intros g (e & He & Hall).
    destruct (in_all_memberships _ _ _ _ _ Hall)
      as (vm & key & v & Hvm & Hkey & Hk & Hg & ->).
    exists vm, key, v. auto.
Qed.

Lemma get_inventory_well_formed_witness :
  NoDup ["vm-type=x"; "vm-type=y"].
Proof.
  apply (get_inventory_well_formed str_scalar two_vms (Some ["vm-type"])
           [("vm-type=x",
             ["vm1 ansible_host=1.1.1.1 ansible_ssh_private_key_file=/k";
              "vm2 ansible_host=1.1.1.2 ansible_ssh_private_key_file=/k"]);
            ("vm-type=y",
             ["vm2 ansible_host=1.1.1.2 ansible_ssh_private_key_file=/k"])]).
  reflexivity.
Defined.

Lemma host_count_append (inventory : inventory_t) (group entry : string) :
  host_count (append_entry inventory group entry) = S (host_count inventory).
Proof.
  unfold host_count. induction inventory as [|[g hosts] rest IH]; cbn.
  - reflexivity.
  - destruct (String.eqb g group); cbn.
    + rewrite !length_app. cbn. lia.
    + rewrite !length_app, IH. lia.
Qed.

Lemma host_count_add_all (ms : list (string * string)) :
  forall inventory,
    host_count (add_all ms inventory) = host_count inventory + List.length ms.
Proof.
  induction ms as [|m ms IH]; intros inventory;
    cbn [add_all fold_left List.length].
  - symmetry. apply Nat.add_0_r.
  - fold (add_all ms (append_entry inventory (fst m) (snd m))).
    rewrite IH, host_count_append. lia.
Qed.

Lemma blocks_length (inventory : inventory_t) :
  List.length (concat (map block inventory))
  = List.length inventory + host_count inventory.
Proof.
  unfold host_count. induction inventory as [|g rest IH]; cbn; [reflexivity|].
  rewrite !length_app, IH, <- (Permutation_length (sorted_perm (snd g))). lia.
Qed.

Lemma host_count_permuted (a b : inventory_t) :
  Permutation a b -> host_count a = host_count b.
Proof.
  intros Hp. unfold host_count. rewrite <- !flat_map_concat_map.
  apply Permutation_length. apply Permutation_flat_map. exact Hp.
Qed.

Lemma blocks_single_lines (items : inventory_t) :
  Forall (fun g => has_char "010" (fst g) = false
                   /\ Forall (fun line => has_char "010" line = false
                                          /\ is_header line = false) (snd g))
         items ->
  Forall (fun line => has_char "010" line = false) (concat (map block items)).
Proof.
  intros Hsafe. apply Forall_concat. apply Forall_map.
  eapply Forall_impl; [|exact Hsafe]. intros g [Hn Hh].
  constructor; [apply header_no_newline; exact Hn|].
  rewrite <- (sorted_perm (snd g)).
  eapply Forall_impl; [|exact Hh]. intros line [H _]. exact H.
Qed.

(** X13: nothing is dropped or merged: the inventory holds one host entry
    for each time a VM falls into a group; and when it is not empty and
    no group name or host entry holds a newline, the text, cut at its
    newlines, has one line for each group and one for each of these
    entries. *)
Theorem get_inventory_counts (str : value -> string)
  (viewitems : inventory_t -> inventory_t) (self : LagoAnsible)
  (keys : option (list string)) (inventory : inventory_t) :
  get_inventory str self keys = Return inventory ->
  Permutation (viewitems inventory) inventory ->
  host_count inventory
  = List.length (all_memberships str self (keys_or_default keys)) /\
  (inventory <> [] -> line_safe inventory = true ->
   exists text,
     get_inventory_str str viewitems self keys = Return text /\
     List.length (split "010" text)
     = List.length inventory
       + List.length (all_memberships str self (keys_or_default keys))).
Proof.
  intros H Hperm.
  assert (Hcount : host_count inventory
                   = List.length (all_memberships str self (keys_or_default keys))).
  { pose proof (get_inventory_spec str self keys) as Hs.
    rewrite H in Hs. destruct Hs as [_ ->].
    rewrite host_count_add_all. reflexivity. }
  split; [exact Hcount|]. intros Hne Hsafe.
  exists (String.concat newline (inventory_lines (viewitems inventory))). split.
  - unfold get_inventory_str. rewrite H. reflexivity.
  - apply line_safe_spec in Hsafe.
    apply (viewitems_forall viewitems _ _ Hperm) in Hsafe.
    rewrite inventory_lines_blocks, split_concat.
    + rewrite blocks_length, (Permutation_length Hperm),
        (host_count_permuted _ _ Hperm), Hcount. reflexivity.
    + destruct (viewitems inventory) as [|g rest]; [|discriminate].
      apply Permutation_nil in Hperm. congruence.
    + exact (blocks_single_lines _ Hsafe).
Qed.

Lemma get_inventory_counts_witness :
  exists text,
    get_inventory_str str_scalar Dict27.viewitems two_vms (Some ["vm-type"])
    = Return text /\
    List.length (split "010" text) = 5.
Proof.
  destruct (get_inventory_counts str_scalar Dict27.viewitems two_vms
              (Some ["vm-type"])
              [("vm-type=x",
                ["vm1 ansible_host=1.1.1.1 ansible_ssh_private_key_file=/k";
                 "vm2 ansible_host=1.1.1.2 ansible_ssh_private_key_file=/k"]);
               ("vm-type=y",
                ["vm2 ansible_host=1.1.1.2 ansible_ssh_private_key_file=/k"])]
              eq_refl) as (_ & Hlines).
  - vm_compute. apply Permutation_refl.
  - destruct Hlines as (text & Htext & Hlen); [discriminate|reflexivity|].
    exists text. split; [exact Htext|exact Hlen].
Defined.

Lemma all_none_resolves (vm : VM.t) (keys : list string) :
  all_none vm keys = true -> resolves vm keys = true.
Proof.
  unfold all_none, resolves. induction keys as [|key keys IH]; cbn; [reflexivity|].
  intros H. apply andb_true_iff in H as [Hk Hr]. rewrite (IH Hr).
  destruct (get_key key (VM.spec vm)); [reflexivity|discriminate].
Qed.

Lemma all_none_memberships (str : value -> string) (self : LagoAnsible)
  (vm : VM.t) (keys : list string) :
  all_none vm keys = true -> flat_map (memberships str self vm) keys = [].
Proof.
  unfold all_none. induction keys as [|key keys IH]; cbn; [reflexivity|].
  intros H. apply andb_true_iff in H as [Hk Hr]. rewrite (IH Hr).
  unfold memberships. destruct (get_key key (VM.spec vm)) as [[]|]; try discriminate.
  reflexivity.
Qed.

(** X14: when no key in use is found on any VM, also when the prefix has
    no VM at all, the inventory is the empty mapping and its text is the
    empty string. *)
Theorem get_inventory_nothing_found (str : value -> string)
  (viewitems : inventory_t -> inventory_t) (self : LagoAnsible)
  (keys : option (list string)) :
  forallb (fun vm => all_none vm (keys_or_default keys)) (get_vms (prefix self))
  = true ->
  Permutation (viewitems []) [] ->
  get_inventory str self keys = Return [] /\
  get_inventory_str str viewitems self keys = Return EmptyString.
Proof.
  intros Hnone Hperm. rewrite forallb_forall in Hnone.
  assert (Hres : all_resolve self keys = true).
  { unfold all_resolve. apply forallb_forall. intros vm Hvm.
    apply all_none_resolves. exact (Hnone vm Hvm). }
  assert (Hms : all_memberships str self (keys_or_default keys) = []).
  { unfold all_memberships.
    induction (get_vms (prefix self)) as [|vm vms IH]; cbn; [reflexivity|].
    rewrite (all_none_memberships str self vm _ (Hnone vm (or_introl eq_refl))).
    apply IH. intros x Hx. apply Hnone. right. exact Hx. }
  pose proof (get_inventory_spec str self keys) as Hs.
  destruct (get_inventory str self keys) as [inventory|e] eqn:Hinv; [|congruence].
  destruct Hs as [_ ->]. rewrite Hms. split; [reflexivity|].
  unfold get_inventory_str. rewrite Hinv, Hms. cbn.
  apply Permutation_sym, Permutation_nil in Hperm. rewrite Hperm. reflexivity.
Qed.

Lemma get_inventory_nothing_found_witness :
  get_inventory str_scalar two_vms (Some ["vm-provider"; "disks/0/name"]) = Return [] /\
  get_inventory_str str_scalar Dict27.viewitems two_vms
    (Some ["vm-provider"; "disks/0/name"])
  = Return EmptyString.
Proof.
  apply (get_inventory_nothing_found str_scalar Dict27.viewitems two_vms
           (Some ["vm-provider"; "disks/0/name"])).
  - reflexivity.
  - vm_compute. apply Permutation_refl.
Defined.

(** *** One more VM *)





(** *** Host entries *)

Lemma before_space (a b x y : string) :
  has_char " " a = false -> has_char " " b = false ->
  (a ++ String " " x)%string = (b ++ String " " y)%string ->
  a = b /\ x = y.
Proof.
  revert b. induction a as [|c a IH]; intros [|c' b] Ha Hb H; cbn in *.
  - injection H as ->. auto.
  - injection H as <- _. discriminate.
  - injection H as -> _. discriminate.
  - injection H as -> H.
    apply orb_false_iff in Ha as [_ Ha]. apply orb_false_iff in Hb as [_ Hb].
    destruct (IH b Ha Hb H) as [-> ->]. auto.
Qed.

Lemma string_app_inv_head (p x y : string) :
  (p ++ x)%string = (p ++ y)%string -> x = y.
Proof.
  induction p as [|c p IH]; cbn; intros H; [exact H|].
  injection H as H. exact (IH H).
Qed.

(** X16: the host entry tells the VMs apart: two VMs of a prefix whose
    names and addresses have no space in them have the same entry only if
    they have the same name and the same address. *)
Theorem generate_entry_injective (self : LagoAnsible) (vm1 vm2 : VM.t) :
  has_char " " (VM.name vm1) = false -> has_char " " (VM.name vm2) = false ->
  has_char " " (VM.ip vm1) = false -> has_char " " (VM.ip vm2) = false ->
  _generate_entry self vm1 = _generate_entry self vm2 ->
  VM.name vm1 = VM.name vm2 /\ VM.ip vm1 = VM.ip vm2.
Proof.
  intros Hn1 Hn2 Hi1 Hi2 H. unfold _generate_entry in H.
  apply before_space in H as [Hname H]; [|assumption|assumption].
  split; [exact Hname|].
  apply (string_app_inv_head "ansible_host=") in H.
  apply before_space in H as [Hip _]; assumption.
Qed.

Lemma generate_entry_injective_witness :
  VM.name (VM.Build "vm1" "1.1.1.1" VNone)
  = VM.name (VM.Build "vm1" "1.1.1.1" (VInt 3)) /\
  VM.ip (VM.Build "vm1" "1.1.1.1" VNone)
  = VM.ip (VM.Build "vm1" "1.1.1.1" (VInt 3)).
Proof.
  apply (generate_entry_injective two_vms
           (VM.Build "vm1" "1.1.1.1" VNone) (VM.Build "vm1" "1.1.1.1" (VInt 3)));
    reflexivity.
Defined.

(** *** The order of the hosts in the text *)

Lemma ascii_compare_trans (x y z : ascii) :
  Ascii.compare x y <> Gt -> Ascii.compare y z <> Gt ->
  Ascii.compare x z <> Gt /\
  (Ascii.compare x z = Eq -> Ascii.compare x y = Eq /\ Ascii.compare y z = Eq).
Proof.
  unfold Ascii.compare.
  destruct (N.compare_spec (N_of_ascii x) (N_of_ascii y)) as [Hxy|Hxy|Hxy];
  destruct (N.compare_spec (N_of_ascii y) (N_of_ascii z)) as [Hyz|Hyz|Hyz];
  destruct (N.compare_spec (N_of_ascii x) (N_of_ascii z)) as [Hxz|Hxz|Hxz];
    intros H1 H2; split; try congruence; try lia; auto.
Qed.

Lemma string_compare_trans (a : string) :
  forall b c,
    String.compare a b <> Gt -> String.compare b c <> Gt ->
    String.compare a c <> Gt.
Proof.
  induction a as [|x a IH]; intros [|y b] [|z c]; cbn; try congruence.
  intros Hab Hbc.
  assert (Hxy : Ascii.compare x y <> Gt)
    by (destruct (Ascii.compare x y); congruence).
  assert (Hyz : Ascii.compare y z <> Gt)
    by (destruct (Ascii.compare y z); congruence).
  destruct (ascii_compare_trans x y z Hxy Hyz) as [Hxz Heq].
  destruct (Ascii.compare x z) eqn:Hc; try congruence.
  destruct (Heq eq_refl) as [Exy Eyz]. rewrite Exy in Hab. rewrite Eyz in Hbc.
  exact (IH b c Hab Hbc).
Qed.

Lemma string_le_trans (a b c : string) :
  string_le a b -> string_le b c -> string_le a c.
Proof.
  unfold string_le, String.leb. intros Hab Hbc.
  pose proof (string_compare_trans a b c) as H.
  destruct (String.compare a b); try discriminate;
    destruct (String.compare b c); try discriminate;
    destruct (String.compare a c); try reflexivity;
    exfalso; apply H; congruence.
Qed.

Lemma string_le_refl (a : string) : string_le a a.
Proof.
  destruct (String.leb_total a a) as [H|H]; exact H.
Qed.

Lemma sorted_strongly (l : list string) :
  Sorted string_le l -> StronglySorted string_le l.
Proof.
  apply Sorted_StronglySorted. intros a b c. apply string_le_trans.
Qed.

Lemma strongly_sorted_head (x : string) (l : list string) (y : string) :
  StronglySorted string_le (x :: l) -> In y (x :: l) -> string_le x y.
Proof.
  intros Hs Hin. apply StronglySorted_inv in Hs as [_ Hall].
  destruct Hin as [<-|Hin]; [apply string_le_refl|].
  rewrite Forall_forall in Hall. exact (Hall y Hin).
Qed.

(** Two sorted lists with the same elements are the same list. *)
Lemma sorted_unique (l1 : list string) :
  forall l2,
    StronglySorted string_le l1 -> StronglySorted string_le l2 ->
    Permutation l1 l2 -> l1 = l2.
Proof.
  induction l1 as [|x l1 IH]; intros l2 H1 H2 Hp.
  - apply Permutation_nil in Hp. congruence.
  - destruct l2 as [|y l2].
    { apply Permutation_sym, Permutation_nil in Hp. discriminate. }
    assert (x = y) as <-.
    { apply String.leb_antisym.
      - apply (strongly_sorted_head x l1 y H1).
        apply (Permutation_in y (Permutation_sym Hp)). left. reflexivity.
      - apply (strongly_sorted_head y l2 x H2).
        apply (Permutation_in x Hp). left. reflexivity. }
    f_equal. apply IH.
    + apply StronglySorted_inv in H1 as [H1 _]. exact H1.
    + apply StronglySorted_inv in H2 as [H2 _]. exact H2.
    + exact (Permutation_cons_inv Hp).
Qed.

Lemma sorted_permuted (l1 l2 : list string) :
  Permutation l1 l2 -> sorted l1 = sorted l2.
Proof.
  intros Hp. apply sorted_unique.
  - apply sorted_strongly, sorted_sorted.
  - apply sorted_strongly, sorted_sorted.
  - rewrite <- (sorted_perm l1), <- (sorted_perm l2). exact Hp.
Qed.

(** X17: the text does not depend on the order of the hosts inside the
    groups: two runs whose mappings yield the same groups in the same
    order, each with the same hosts in any order, give the same text. *)
Theorem get_inventory_str_host_order (str : value -> string)
  (viewitems : inventory_t -> inventory_t)
  (self self' : LagoAnsible) (keys keys' : option (list string))
  (inventory inventory' : inventory_t) :
  get_inventory str self keys = Return inventory ->
  get_inventory str self' keys' = Return inventory' ->
  same_groups (viewitems inventory) (viewitems inventory') ->
  get_inventory_str str viewitems self keys
  = get_inventory_str str viewitems self' keys'.
Proof.
  intros H H' Hsame. unfold get_inventory_str. rewrite H, H'. cbn [bind].
  assert (Hblocks : map block (viewitems inventory)
                    = map block (viewitems inventory')).
  { clear H H'.
    induction Hsame as [|g g' rest rest' [Hname Hhosts] _ IH]; [reflexivity|].
    cbn [map]. rewrite IH. unfold block.
    rewrite Hname, (sorted_permuted _ _ Hhosts). reflexivity. }
  rewrite !inventory_lines_blocks, Hblocks. reflexivity.
Qed.

Lemma get_inventory_str_host_order_witness :
  get_inventory_str str_scalar Dict27.viewitems two_vms (Some ["vm-type"])
  = get_inventory_str str_scalar Dict27.viewitems two_vms_swapped
      (Some ["vm-type"]).
Proof.
  apply (get_inventory_str_host_order str_scalar Dict27.viewitems
           two_vms two_vms_swapped
           (Some ["vm-type"]) (Some ["vm-type"])
           [("vm-type=x",
             ["vm1 ansible_host=1.1.1.1 ansible_ssh_private_key_file=/k";
              "vm2 ansible_host=1.1.1.2 ansible_ssh_private_key_file=/k"]);
            ("vm-type=y",
             ["vm2 ansible_host=1.1.1.2 ansible_ssh_private_key_file=/k"])]
           [("vm-type=x",
             ["vm2 ansible_host=1.1.1.2 ansible_ssh_private_key_file=/k";
              "vm1 ansible_host=1.1.1.1 ansible_ssh_private_key_file=/k"]);
            ("vm-type=y",
             ["vm2 ansible_host=1.1.1.2 ansible_ssh_private_key_file=/k"])]).
  - reflexivity.
  - reflexivity.
  - vm_compute.
    constructor; [split; [reflexivity|apply perm_swap]|].
    constructor; [split; reflexivity|constructor].
Defined.
